(** * Newshardbot: a shallow embedding of the news-to-channel pipeline

    The program scans the paginated news index, filters the links against
    the table [posted] of the local SQLite file, looks at each remaining
    article (oldest first), and sends the recent ones to a Telegram
    channel.  This file embeds [src/Newshardbot.py] function by function
    and proves properties of the embedded program.

    Conventions.
    - A Python [str] is a [string] holding its UTF-8 encoding.  Every
      string operation of the source used here (concatenation, replacing
      an ASCII character, testing an ASCII prefix or suffix, cutting at
      the character [/], stripping white space, substring search) gives
      the same result on the encoding as on the code points.
    - A Python [int] is a [Z].  An aware UTC [datetime] is the number of
      microseconds since the epoch, a [Z].
    - [None]-or-[str] values are [option string]; truthiness is written
      out ([truthy], [py_or], [or_else]).
    - Library functions whose behaviour is a table or a grammar of its own
      (urllib, datetime.fromisoformat, json.loads, str.lower, zoneinfo)
      are the fields of the class [Library]; the network, the clock and
      the Telegram API are the fields of the record [World]. *)

From Stdlib Require Import ZArith Ascii String List Bool Lia DecimalString.
From stdpp Require Import base gmap strings list.

Local Open Scope Z_scope.
Set Warnings "-register-all".

(** ** Python strings *)

Module PyStr.

Definition LF : ascii := "010"%char.
Definition QUOT : ascii := "034"%char.
Definition nl : string := String LF EmptyString.
Definition quot : string := String QUOT EmptyString.

(** Truthiness of a [str]: non-empty. *)
Definition truthy (s : string) : bool :=
  match s with EmptyString => false | String _ _ => true end.

(** [a or b] on two strings. *)
Definition py_or (a b : string) : string := if truthy a then a else b.

(** [o or b] where [o] is [None] or a string. *)
Definition or_else (o : option string) (b : string) : string :=
  match o with Some a => py_or a b | None => b end.

(** Truthiness of a [None]-or-[str] value. *)
Definition truthy_opt (o : option string) : bool :=
  match o with Some a => truthy a | None => false end.

(** [str.replace(old, new)]: the occurrences of [old] are found from the
    left and do not overlap.  [skip] counts the characters of a matched
    occurrence that are still to be dropped. *)
Fixpoint replace_from (old new : string) (skip : nat) (s : string) : string :=
  match s with
  | EmptyString => EmptyString
  | String c s' =>
      match skip with
      | S k => replace_from old new k s'
      | O =>
          if String.prefix old s
          then new +:+ replace_from old new (Nat.pred (String.length old)) s'
          else String c (replace_from old new O s')
      end
  end.

(** With an empty [old], Python puts [new] before every character and at
    the end. *)
Fixpoint interleave (new s : string) : string :=
  match s with
  | EmptyString => new
  | String c s' => new +:+ String c (interleave new s')
  end.

Definition str_replace (old new s : string) : string :=
  match old with
  | EmptyString => interleave new s
  | String _ _ => replace_from old new O s
  end.

(** [s.startswith(p)] and the rest after [p]. *)
Fixpoint strip_prefix (p s : string) : option string :=
  match p, s with
  | EmptyString, _ => Some s
  | String a p', String b s' => if Ascii.eqb a b then strip_prefix p' s' else None
  | String _ _, EmptyString => None
  end.

(** [k in t]. *)
Fixpoint contains (k t : string) : bool :=
  String.prefix k t ||
  match t with
  | EmptyString => false
  | String _ t' => contains k t'
  end.

Definition str_rev (s : string) : string :=
  string_of_list_ascii (List.rev (list_ascii_of_string s)).

(** [s.endswith(p)]. *)
Definition endswith (s p : string) : bool := String.prefix (str_rev p) (str_rev s).

(** [s[:-1]]. *)
Definition drop_last (s : string) : string :=
  string_of_list_ascii (removelast (list_ascii_of_string s)).

(** The white space of [str.strip()]: the code points for which
    [str.isspace] holds, in UTF-8. *)
Definition whitespace : list string :=
  [ String "009" EmptyString; String "010" EmptyString; String "011" EmptyString;
    String "012" EmptyString; String "013" EmptyString; String "028" EmptyString;
    String "029" EmptyString; String "030" EmptyString; String "031" EmptyString;
    String "032" EmptyString;
    String "194" (String "133" EmptyString);
    String "194" (String "160" EmptyString);
    String "225" (String "154" (String "128" EmptyString));
    String "226" (String "128" (String "128" EmptyString));
    String "226" (String "128" (String "129" EmptyString));
    String "226" (String "128" (String "130" EmptyString));
    String "226" (String "128" (String "131" EmptyString));
    String "226" (String "128" (String "132" EmptyString));
    String "226" (String "128" (String "133" EmptyString));
    String "226" (String "128" (String "134" EmptyString));
    String "226" (String "128" (String "135" EmptyString));
    String "226" (String "128" (String "136" EmptyString));
    String "226" (String "128" (String "137" EmptyString));
    String "226" (String "128" (String "138" EmptyString));
    String "226" (String "128" (String "168" EmptyString));
    String "226" (String "128" (String "169" EmptyString));
    String "226" (String "128" (String "175" EmptyString));
    String "226" (String "129" (String "159" EmptyString));
    String "227" (String "128" (String "128" EmptyString)) ]%char.

(** The rest of [s] after one leading white-space character, if any. *)
Fixpoint drop_one (ws : list string) (s : string) : option string :=
  match ws with
  | [] => None
  | w :: ws' =>
      match strip_prefix w s with
      | Some r => Some r
      | None => drop_one ws' s
      end
  end.

Fixpoint lstrip_fuel (ws : list string) (fuel : nat) (s : string) : string :=
  match fuel with
  | O => s
  | S fuel' =>
      match drop_one ws s with
      | Some r => lstrip_fuel ws fuel' r
      | None => s
      end
  end.

(** A white-space character is at least one byte long, so [length s]
    rounds are enough. *)
Definition lstrip (s : string) : string :=
  lstrip_fuel whitespace (String.length s) s.

Definition rstrip (s : string) : string :=
  str_rev (lstrip_fuel (List.map str_rev whitespace) (String.length s) (str_rev s)).

Definition strip (s : string) : string := rstrip (lstrip s).

(** Cutting at [/]: [s.split("/")]. *)
Fixpoint split_slash (cur : string) (s : string) : list string :=
  match s with
  | EmptyString => [str_rev cur]
  | String c s' =>
      if Ascii.eqb c "/"%char then str_rev cur :: split_slash EmptyString s'
      else split_slash (String c cur) s'
  end.

(** [" ".join(l)]. *)
Fixpoint join_space (l : list string) : string :=
  match l with
  | [] => EmptyString
  | [x] => x
  | x :: l' => x +:+ " " +:+ join_space l'
  end.

(** Character-wise substitution: every character [c] becomes [f c]. *)
Fixpoint subst_chars (f : ascii -> string) (s : string) : string :=
  match s with
  | EmptyString => EmptyString
  | String c s' => f c +:+ subst_chars f s'
  end.

End PyStr.
Import PyStr.

(** ** Helpers of the source *)

(** [html_escape], lines 82-88: four replacements, the ampersand first. *)
Definition html_escape (s : string) : string :=
  str_replace quot "&quot;"
    (str_replace ">" "&gt;"
       (str_replace "<" "&lt;"
          (str_replace "&" "&amp;" s))).

(** ** Library functions

    [urlparse], [ParseResult.geturl] and [urljoin] of urllib.parse;
    [datetime.fromisoformat]; [json.loads]; [str.lower]; and the display
    of a UTC instant in the zone Europe/Berlin (lines 321-328). *)

Record ParseResult := {
  scheme : string; netloc : string; path : string;
  params : string; query : string; fragment : string }.

(** What [datetime.fromisoformat] returns: the wall-clock fields, as
    microseconds since the epoch when read as UTC, and the offset of the
    zone (microseconds east of UTC), [None] for a naive value. *)
Record DateTime := { wall_clock : Z; utcoffset : option Z }.

(** A value of [json.loads].  Of a float only its being zero is kept:
    the source looks at numbers through truthiness alone.  An object is
    the list of its members, each key once. *)
Inductive json :=
| JNull
| JBool (b : bool)
| JInt (n : Z)
| JFloat (is_zero : bool)
| JStr (s : string)
| JArr (l : list json)
| JObj (members : list (string * json)).

Class Library := {
  urlparse : string -> ParseResult;
  geturl : ParseResult -> string;
  urljoin : string -> string -> string;
  fromisoformat : string -> option DateTime;
  json_loads : string -> option json;
  str_lower : string -> string;
  strftime_display : Z -> string }.

(** ** Configuration (lines 18-37) *)

Record Config := {
  BOT_TOKEN : option string;
  CHANNEL : option string;
  NEWS_INDEX_URL : string;
  MAX_POSTS_PER_RUN : Z;
  WINDOW_HOURS : Z;
  PAGES_TO_SCAN : Z;
  ARTICLES_PER_PAGE_HINT : Z;
  SLEEP_BETWEEN_POSTS_SEC : Z }.

Definition source_config (token channel : option string) : Config := {|
  BOT_TOKEN := token;
  CHANNEL := channel;
  NEWS_INDEX_URL := "https://worldoftanks.eu/ru/news/";
  MAX_POSTS_PER_RUN := 2;
  WINDOW_HOURS := 48;
  PAGES_TO_SCAN := 6;
  ARTICLES_PER_PAGE_HINT := 48;
  SLEEP_BETWEEN_POSTS_SEC := 2 |}.

(** [ARTICLE_PATH_RE.match], line 29: [^/ru/news/([^/]+)/([^/]+)/?$].
    The result is the pair of groups.  [$] also matches before a final
    line feed. *)
Definition article_path_match (s : string) : option (string * string) :=
  match strip_prefix "/ru/news/" s with
  | None => None
  | Some rest =>
      match split_slash EmptyString rest with
      | [cat; slug] =>
          if truthy cat && truthy slug then Some (cat, slug) else None
      | [cat; slug; last] =>
          if truthy cat && truthy slug
             && (bool_decide (last = EmptyString) || bool_decide (last = nl))
          then Some (cat, slug) else None
      | _ => None
      end
  end.

Section Program.

Context `{lib : Library}.

(** ** Dates (lines 143-177) *)

(** The range of [datetime]: 0001-01-01T00:00:00 to
    9999-12-31T23:59:59.999999; a subtraction that leaves it raises
    [OverflowError]. *)
Definition DATETIME_MIN : Z := -62135596800000000.
Definition DATETIME_MAX : Z := 253402300799999999.

(** Lines 151-153: a naive value is read as UTC, an aware one is moved to
    UTC; [None] when [astimezone] raises. *)
Definition astimezone_utc (dt : DateTime) : option Z :=
  match utcoffset dt with
  | None => Some (wall_clock dt)
  | Some off =>
      let utc := wall_clock dt - off in
      if (DATETIME_MIN <=? utc) && (utc <=? DATETIME_MAX) then Some utc else None
  end.

Definition parse_iso_datetime (s : string) : option Z :=
  if negb (truthy s) then None
  else
    let s := strip s in
    let s := if endswith s "Z" then drop_last s +:+ "+00:00" else s in
    match fromisoformat s with
    | Some dt => astimezone_utc dt
    | None => None
    end.

Definition truthy_json (v : json) : bool :=
  match v with
  | JNull => false
  | JBool b => b
  | JInt n => negb (n =? 0)
  | JFloat z => negb z
  | JStr s => truthy s
  | JArr l => match l with [] => false | _ => true end
  | JObj m => match m with [] => false | _ => true end
  end.

(** [obj.get(key)]; [None] stands for Python's [None]. *)
Fixpoint dict_get (key : string) (m : list (string * json)) : option json :=
  match m with
  | [] => None
  | (k, v) :: m' => if bool_decide (k = key) then Some v else dict_get key m'
  end.

(** The first [Some] of [f] over [l]: a loop that returns from its body. *)
Fixpoint first_some {A B} (f : A -> option B) (l : list A) : option B :=
  match l with
  | [] => None
  | x :: l' => match f x with Some y => Some y | None => first_some f l' end
  end.

(** Lines 170-176, one object of a JSON-LD block. *)
Definition jsonld_object_date (obj : json) : option Z :=
  match obj with
  | JObj m =>
      let dp :=
        match dict_get "datePublished" m with
        | Some v => if truthy_json v then Some v else dict_get "dateCreated" m
        | None => dict_get "dateCreated" m
        end in
      match dp with
      | Some (JStr s) => parse_iso_datetime s
      | _ => None
      end
  | _ => None
  end.

(** Lines 160-176, one script element; [raw] is its stripped text. *)
Definition jsonld_script_date (raw : string) : option Z :=
  if negb (truthy raw) then None
  else
    match json_loads raw with
    | None => None
    | Some data =>
        let objs := match data with JArr l => l | _ => [data] end in
        first_some jsonld_object_date objs
    end.

(** ** Article pages (lines 180-238)

    What the queries of [fetch_article_meta] find in the parsed page: for
    each [soup.find(..)] the attribute read from the first matching
    element ([None] when there is no such element or it lacks the
    attribute), and the stripped texts of the JSON-LD scripts in document
    order. *)
Record Document := {
  meta_published_time : option string;
  time_datetime : option string;
  meta_itemprop_date : option string;
  ld_json_scripts : list string;
  meta_og_image : option string;
  meta_twitter_image : option string;
  meta_itemprop_image : option string;
  meta_og_title : option string;
  title_text : option string }.

Definition extract_from_jsonld (d : Document) : option Z :=
  first_some jsonld_script_date (ld_json_scripts d).

(** [if x and x.get(attr): v = f(x[attr])], for an attribute [o]. *)
Definition when_attr {A} (o : option string) (f : string -> option A) (v : option A)
  : option A :=
  match o with
  | Some s => if truthy s then f s else v
  | None => v
  end.

(** Lines 191-209. *)
Definition published_dt_of (d : Document) : option Z :=
  let published_dt := None in
  let published_dt := when_attr (meta_published_time d) parse_iso_datetime published_dt in
  let published_dt :=
    match published_dt with
    | None => when_attr (time_datetime d) parse_iso_datetime published_dt
    | Some _ => published_dt
    end in
  let published_dt :=
    match published_dt with
    | None => when_attr (meta_itemprop_date d) parse_iso_datetime published_dt
    | Some _ => published_dt
    end in
  match published_dt with
  | None => extract_from_jsonld d
  | Some _ => published_dt
  end.

(** Lines 211-226. *)
Definition image_url_of (d : Document) : option string :=
  let strip' s := Some (strip s) in
  let image_url := when_attr (meta_og_image d) strip' None in
  let image_url :=
    if truthy_opt image_url then image_url
    else when_attr (meta_twitter_image d) strip' image_url in
  if truthy_opt image_url then image_url
  else when_attr (meta_itemprop_image d) strip' image_url.

(** Lines 228-236. *)
Definition title_of (d : Document) : option string :=
  let title := when_attr (meta_og_title d) (fun s => Some (strip s)) None in
  if truthy_opt title then title
  else when_attr (title_text d) Some title.

Definition ArticleMeta : Type := option Z * option string * option string.

Definition article_meta (d : Document) : ArticleMeta :=
  (published_dt_of d, image_url_of d, title_of d).

(** ** URLs (lines 241-253) *)

Definition normalize_url (u : string) : string :=
  let p := urlparse u in
  geturl {| scheme := scheme p; netloc := netloc p; path := path p;
            params := params p; query := EmptyString; fragment := EmptyString |}.

Definition tag_from_article_url (article_url : string) : string :=
  match article_path_match (path (urlparse article_url)) with
  | None => "news"
  | Some (cat, _) => cat
  end.

(** ** Styling (lines 256-352) *)

(** [mapping.get(key, default)] on a dict literal. *)
Fixpoint mapping_get (m : list (string * string)) (key default : string) : string :=
  match m with
  | [] => default
  | (k, v) :: m' => if bool_decide (k = key) then v else mapping_get m' key default
  end.

Definition tag_to_icon (tag : string) : string :=
  mapping_get
    [ ("updates", "🛠️"); ("specials", "🎁"); ("general-news", "📢");
      ("merchandise", "🛍️"); ("clan", "🛡️"); ("tournaments", "🏆");
      ("competitive-gaming", "🏆"); ("community", "👥"); ("live-streams", "📺");
      ("guides", "📘"); ("ranked", "🎖️"); ("frontline", "🚚");
      ("battle-pass", "🎟️"); ("common-test", "🧪"); ("test", "🧪") ]
    tag "📰".

Definition tag_to_label (tag : string) : string :=
  mapping_get
    [ ("updates", "Обновления"); ("specials", "Акции"); ("general-news", "Новости");
      ("merchandise", "Мерч"); ("common-test", "Тест"); ("test", "Тест") ]
    tag tag.

(** The loops marked [unique keep order] (lines 308-314 and 377-384):
    [seen] is the set of keys met so far. *)
Fixpoint unique_keep_order {A} (key : A -> string) (seen : gset string) (l : list A)
  : list A :=
  match l with
  | [] => []
  | x :: l' =>
      if bool_decide (key x ∈ seen) then unique_keep_order key seen l'
      else x :: unique_keep_order key ({[key x]} ∪ seen) l'
  end.

Definition hashtag_groups : list (list string * string) :=
  [ (["патч"; "обновлен"; "микропатч"; "update"], "#patch");
    (["акц"; "скид"; "распрод"; "sale"; "%"], "#sale");
    (["ивент"; "событ"; "event"; "мисси"; "задач"], "#event");
    (["турнир"; "tournament"], "#tournament");
    (["прем"; "premium"], "#premium");
    (["тест"; "common test"; "общем тест"], "#test");
    (["карта"; "map"], "#maps");
    (["танк"; "ветк"; "branch"], "#tanks") ].

Definition extra_hashtags_by_title (title : string) : list string :=
  let t := str_lower (py_or title EmptyString) in
  let tags :=
    List.map snd
      (List.filter (fun g => existsb (fun k => contains k t) (fst g)) hashtag_groups) in
  unique_keep_order (fun x => x) ∅ tags.

Definition format_dt (dt_utc : option Z) : string :=
  match dt_utc with
  | None => "—"
  | Some t => strftime_display t
  end.

Definition hashtags_line (title tag : string) : string :=
  let safe_tag := html_escape tag in
  let extra_tags_str := join_space (extra_hashtags_by_title (py_or title EmptyString)) in
  let line := "🏷️ #" +:+ safe_tag in
  if truthy extra_tags_str then line +:+ "  " +:+ html_escape extra_tags_str else line.

Definition format_caption_style2 (title tag : string) (published_dt_utc : option Z)
  : string :=
  let safe_title := html_escape (py_or title "Без названия") in
  let safe_label := html_escape (tag_to_label tag) in
  let icon := tag_to_icon tag in
  let dt_str := html_escape (format_dt published_dt_utc) in
  "📰 <b>WoT EU • НОВОСТИ</b>" +:+ nl +:+
  icon +:+ " <b>" +:+ safe_title +:+ "</b>" +:+ nl +:+
  "📅 Дата: <b>" +:+ dt_str +:+ "</b>" +:+ nl +:+
  "📌 Раздел: <b>" +:+ safe_label +:+ "</b>" +:+ nl +:+
  hashtags_line title tag.

(** ** The table [posted] (lines 41-78)

    The rows of the table, oldest first.  The column [url] is declared
    [PRIMARY KEY]; [mark_posted] inserts with [INSERT OR IGNORE], which
    leaves the table as it is when a row with the same key exists. *)
Record PostedRecord := {
  rec_url : string; rec_title : string; rec_tag : string; rec_posted_at : string }.

Definition Table : Type := list PostedRecord.

Definition urls_of (t : Table) : list string := List.map rec_url t.

(** [CREATE TABLE IF NOT EXISTS]: an existing table keeps its rows, a
    file without the table is the empty table. *)
Definition init_db (t : Table) : Table := t.

Definition already_posted (url : string) (t : Table) : bool :=
  bool_decide (url ∈ urls_of t).

(** [posted_at] is the clock reading taken by the call. *)
Definition mark_posted (url title tag posted_at : string) (t : Table) : Table :=
  if bool_decide (url ∈ urls_of t) then t
  else t ++ [ {| rec_url := url; rec_title := title; rec_tag := tag;
                 rec_posted_at := posted_at |} ].

(** ** The outside world

    One anchor of a listing page, as [soup.find_all("a", href=True)]
    gives it: the attribute [href] and the text [a.get_text(" ",
    strip=True)]. *)
Record Anchor := { href : string; anchor_text : string }.

(** The two calls of the Telegram API.  [button_url] stands for the
    field [reply_markup], which [make_button] computes from it alone. *)
Inductive TgRequest :=
| SendPhoto (chat_id : option string) (photo caption button_url : string)
| SendMessage (chat_id : option string) (text button_url : string).

Definition button_of (r : TgRequest) : string :=
  match r with
  | SendPhoto _ _ _ u => u
  | SendMessage _ _ u => u
  end.

(** What the program does to the outside, in order.  A response [None]
    is an exception raised by the call ([requests] errors,
    [raise_for_status]); for Telegram, [Some ok] is the flag [r.ok]. *)
Inductive event :=
| EvIndex (page_url : string) (resp : option (list Anchor))
| EvArticle (url : string) (resp : option Document)
| EvTelegram (req : TgRequest) (resp : option bool)
| EvMark (url title tag posted_at : string)
| EvSleep (seconds : Z).

(** The answers of the world may depend on everything that happened
    before in the run. *)
Record World := {
  now_utc : list event -> Z;
  now_isoformat : list event -> string;
  get_index : list event -> string -> option (list Anchor);
  get_article : list event -> string -> option Document;
  telegram_post : list event -> TgRequest -> option bool }.

Record State := { trace : list event; table : Table }.

Definition log (e : event) (st : State) : State :=
  {| trace := trace st ++ [e]; table := table st |}.

Inductive Exit :=
| Returned
| ExitMissingConfig
| ExitTelegramError
| RaisedRequestError.

Section Run.

Variable cfg : Config.
Variable w : World.

Definition Item : Type := string * string.

(** ** The index (lines 356-404) *)

Definition index_items (page_url : string) (anchors : list Anchor) : list Item :=
  omap (fun a =>
          let href := strip (href a) in
          match article_path_match href with
          | None => None
          | Some _ =>
              Some (normalize_url (urljoin page_url href),
                    py_or (anchor_text a) EmptyString)
          end) anchors.

Definition parse_news_index_page (page_url : string) (st : State)
  : option (list Item) * State :=
  let resp := get_index w (trace st) page_url in
  let st := log (EvIndex page_url resp) st in
  match resp with
  | None => (None, st)
  | Some anchors => (Some (unique_keep_order fst ∅ (index_items page_url anchors)), st)
  end.

Definition string_of_Z (n : Z) : string := NilEmpty.string_of_int (Z.to_int n).

Definition page_url_of (page : Z) : string :=
  if page =? 1 then NEWS_INDEX_URL cfg
  else urljoin (NEWS_INDEX_URL cfg) ("p" +:+ string_of_Z page +:+ "/").

(** The loop of [collect_new_links_all] over the pages still to scan. *)
Fixpoint collect_pages (pages : list Z) (all_items : list Item) (st : State)
  : option (list Item) * State :=
  match pages with
  | [] => (Some all_items, st)
  | page :: pages' =>
      match parse_news_index_page (page_url_of page) st with
      | (None, st) => (None, st)
      | (Some items, st) =>
          let all_items := all_items ++ items in
          if ARTICLES_PER_PAGE_HINT cfg * PAGES_TO_SCAN cfg <=? Z.of_nat (length all_items)
          then (Some all_items, st)
          else collect_pages pages' all_items st
      end
  end.

(** [range(1, PAGES_TO_SCAN + 1)]. *)
Definition page_range : list Z :=
  List.map Z.of_nat (seq 1 (Z.to_nat (PAGES_TO_SCAN cfg))).

Definition collect_new_links_all (st : State) : option (list Item) * State :=
  collect_pages page_range [] st.

(** ** The run (lines 408-473) *)

Definition fetch_article_meta (url : string) (st : State)
  : option ArticleMeta * State :=
  let resp := get_article w (trace st) url in
  (option_map article_meta resp, log (EvArticle url resp) st).

(** [tg_api_post], lines 91-105, on a request built by [tg_send_photo] or
    [tg_send_message]. *)
Definition tg_api_post (req : TgRequest) (st : State) : option bool * State :=
  let resp := telegram_post w (trace st) req in
  (resp, log (EvTelegram req resp) st).

Definition do_mark_posted (url title tag : string) (st : State) : State :=
  let posted_at := now_isoformat w (trace st) in
  {| trace := trace st ++ [EvMark url title tag posted_at];
     table := mark_posted url title tag posted_at (table st) |}.

(** Lines 458-469: the request for an admitted article. *)
Definition request_for (url : string) (img : option string) (caption : string)
  : TgRequest :=
  if truthy_opt img
  then SendPhoto (CHANNEL cfg) (or_else img EmptyString) caption url
  else
    let safe_url := html_escape url in
    SendMessage (CHANNEL cfg)
      (caption +:+ nl +:+ nl +:+ "<a href=" +:+ quot +:+ safe_url +:+ quot
       +:+ ">Открыть</a>")
      url.

(** The loop of lines 434-473. *)
Fixpoint publish_loop (cutoff : Z) (candidates : list Item) (posted_count : Z)
  (st : State) : Exit * State :=
  match candidates with
  | [] => (Returned, st)
  | (url, title_guess) :: rest =>
      if MAX_POSTS_PER_RUN cfg <=? posted_count then (Returned, st)
      else
        let tag := tag_from_article_url url in
        match fetch_article_meta url st with
        | (None, st) =>
            publish_loop cutoff rest posted_count
              (do_mark_posted url (py_or title_guess url) tag st)
        | (Some (pub_dt, img, title_real), st) =>
            match pub_dt with
            | None =>
                publish_loop cutoff rest posted_count
                  (do_mark_posted url (or_else title_real (py_or title_guess url)) tag st)
            | Some dt =>
                if dt <? cutoff then
                  publish_loop cutoff rest posted_count
                    (do_mark_posted url (or_else title_real (py_or title_guess url)) tag st)
                else
                  let title_to_use := or_else title_real (py_or title_guess "Новость") in
                  let caption := format_caption_style2 title_to_use tag (Some dt) in
                  match tg_api_post (request_for url img caption) st with
                  | (Some true, st) =>
                      let st := do_mark_posted url title_to_use tag st in
                      let st := log (EvSleep (SLEEP_BETWEEN_POSTS_SEC cfg)) st in
                      publish_loop cutoff rest (posted_count + 1) st
                  | (Some false, st) => (ExitTelegramError, st)
                  | (None, st) => (RaisedRequestError, st)
                  end
            end
        end
  end.

(** [timedelta(hours=WINDOW_HOURS)] in microseconds.  The start of the
    run less the window is taken to lie in the range of [datetime]. *)
Definition window : Z := WINDOW_HOURS cfg * 3600 * 1000000.

Definition run_once (db : Table) : Exit * State :=
  let st := {| trace := []; table := db |} in
  if negb (truthy_opt (BOT_TOKEN cfg)) || negb (truthy_opt (CHANNEL cfg))
  then (ExitMissingConfig, st)
  else
    let st := {| trace := trace st; table := init_db (table st) |} in
    let now := now_utc w (trace st) in
    let cutoff := now - window in
    match collect_new_links_all st with
    | (None, st) => (RaisedRequestError, st)
    | (Some raw_candidates, st) =>
        match raw_candidates with
        | [] => (Returned, st)
        | _ =>
            let candidates :=
              List.filter (fun c => negb (already_posted (fst c) (table st))) raw_candidates in
            match candidates with
            | [] => (Returned, st)
            | _ => publish_loop cutoff (List.rev candidates) 0 st
            end
        end
    end.

End Run.

(** ** Reading a trace *)

(** The articles published, in order: the buttons of the accepted
    Telegram requests. *)
Fixpoint published_urls (tr : list event) : list string :=
  match tr with
  | [] => []
  | EvTelegram req (Some true) :: tr' => button_of req :: published_urls tr'
  | _ :: tr' => published_urls tr'
  end.

(** The table after the writes of a trace. *)
Fixpoint apply_marks (tr : list event) (t : Table) : Table :=
  match tr with
  | [] => t
  | EvMark u title tag ts :: tr' => apply_marks tr' (mark_posted u title tag ts t)
  | _ :: tr' => apply_marks tr' t
  end.

Definition is_index (e : event) : Prop :=
  match e with EvIndex _ _ => True | _ => False end.

(** A request for a listing page that was answered. *)
Definition index_ok (e : event) : Prop :=
  match e with EvIndex _ (Some _) => True | _ => False end.

(** The loop of [run_once], iteration by iteration, as a relation.
    [iterations w cutoff cap h n us tr ex]: after the events [h], with
    [n] articles posted, the loop takes up the articles [us] in this
    order, produces the events [tr] and ends with [ex]. *)
Inductive iterations (w : World) (cutoff cap : Z)
  : list event -> Z -> list string -> list event -> Exit -> Prop :=
| it_end h n :
    iterations w cutoff cap h n [] [] Returned
| it_unfetchable h n u title tag ts us tr ex :
    n < cap ->
    get_article w h u = None ->
    iterations w cutoff cap (h ++ [EvArticle u None; EvMark u title tag ts]) n us tr ex ->
    iterations w cutoff cap h n (u :: us)
      (EvArticle u None :: EvMark u title tag ts :: tr) ex
| it_undated h n u doc title tag ts us tr ex :
    n < cap ->
    get_article w h u = Some doc ->
    published_dt_of doc = None ->
    iterations w cutoff cap (h ++ [EvArticle u (Some doc); EvMark u title tag ts])
      n us tr ex ->
    iterations w cutoff cap h n (u :: us)
      (EvArticle u (Some doc) :: EvMark u title tag ts :: tr) ex
| it_stale h n u doc t title tag ts us tr ex :
    n < cap ->
    get_article w h u = Some doc ->
    published_dt_of doc = Some t ->
    t < cutoff ->
    iterations w cutoff cap (h ++ [EvArticle u (Some doc); EvMark u title tag ts])
      n us tr ex ->
    iterations w cutoff cap h n (u :: us)
      (EvArticle u (Some doc) :: EvMark u title tag ts :: tr) ex
| it_published h n u doc t req title tag ts secs us tr ex :
    n < cap ->
    get_article w h u = Some doc ->
    published_dt_of doc = Some t ->
    cutoff <= t ->
    button_of req = u ->
    telegram_post w (h ++ [EvArticle u (Some doc)]) req = Some true ->
    iterations w cutoff cap
      (h ++ [EvArticle u (Some doc); EvTelegram req (Some true);
             EvMark u title tag ts; EvSleep secs])
      (n + 1) us tr ex ->
    iterations w cutoff cap h n (u :: us)
      (EvArticle u (Some doc) :: EvTelegram req (Some true)
         :: EvMark u title tag ts :: EvSleep secs :: tr) ex
| it_refused h n u doc t req :
    n < cap ->
    get_article w h u = Some doc ->
    published_dt_of doc = Some t ->
    cutoff <= t ->
    button_of req = u ->
    telegram_post w (h ++ [EvArticle u (Some doc)]) req = Some false ->
    iterations w cutoff cap h n [u]
      [EvArticle u (Some doc); EvTelegram req (Some false)] ExitTelegramError
| it_send_raised h n u doc t req :
    n < cap ->
    get_article w h u = Some doc ->
    published_dt_of doc = Some t ->
    cutoff <= t ->
    button_of req = u ->
    telegram_post w (h ++ [EvArticle u (Some doc)]) req = None ->
    iterations w cutoff cap h n [u]
      [EvArticle u (Some doc); EvTelegram req None] RaisedRequestError.

(** The article an event is about. *)
Definition event_url (e : event) : option string :=
  match e with
  | EvArticle u _ => Some u
  | EvTelegram req _ => Some (button_of req)
  | EvMark u _ _ _ => Some u
  | _ => None
  end.

(** [justifies cutoff u e]: the event [e] is a reason to record [u]:
    its page could not be fetched, or carries no date, or a date before
    [cutoff], or Telegram accepted its message. *)
Definition justifies (cutoff : Z) (u : string) (e : event) : Prop :=
  match e with
  | EvArticle u' None => u' = u
  | EvArticle u' (Some doc) =>
      u' = u /\
      (published_dt_of doc = None \/
       exists t, published_dt_of doc = Some t /\ t < cutoff)
  | EvTelegram req (Some true) => button_of req = u
  | _ => False
  end.

(** The cutoff of a run: its start less the window. *)
Definition cutoff_of (cfg : Config) (w : World) : Z := now_utc w [] - window cfg.

(** The candidates of the loop, in its order: the links that are not
    in the table, last discovered first (lines 423-432). *)
Definition candidates_ordered (db : Table) (raw : list (string * string))
  : list (string * string) :=
  List.rev (List.filter (fun c => negb (already_posted (fst c) db)) raw).

(** ** Statements in the words of the specification *)

(** The entity of a character. *)
Definition escape_char (c : ascii) : string :=
  if Ascii.eqb c "&" then "&amp;"
  else if Ascii.eqb c "<" then "&lt;"
  else if Ascii.eqb c ">" then "&gt;"
  else if Ascii.eqb c QUOT then "&quot;"
  else String c EmptyString.

Definition occurs (c : ascii) (s : string) : Prop := In c (list_ascii_of_string s).

(** The date line and the category line of a caption. *)
Definition date_and_category (tag : string) (dt : option Z) : string :=
  "📅 Дата: <b>" +:+ html_escape (format_dt dt) +:+ "</b>" +:+ nl +:+
  "📌 Раздел: <b>" +:+ html_escape (tag_to_label tag) +:+ "</b>" +:+ nl.

(** The timestamps a page offers for its publish time, in priority
    order, read from the page itself: the content of the
    [article:published_time] meta property, the [datetime] attribute of
    the [time] element, the content of the [datePublished] itemprop
    meta, then those of the JSON-LD blocks in document order. *)
Definition json_string (v : option json) : option string :=
  match v with Some (JStr s) => Some s | _ => None end.

(** What an object of a JSON-LD block offers: its [datePublished] when
    that is a truthy value, its [dateCreated] otherwise; a value that is
    not a string offers nothing. *)
Definition jsonld_date_string (obj : json) : option string :=
  match obj with
  | JObj m =>
      match List.filter truthy_json (option_list (dict_get "datePublished" m)) with
      | v :: _ => json_string (Some v)
      | [] => json_string (dict_get "dateCreated" m)
      end
  | _ => None
  end.

(** A block that is empty or is not JSON offers nothing; a block that
    is a list offers what its elements do, in their order. *)
Definition jsonld_block_strings (raw : string) : list string :=
  match raw with
  | EmptyString => []
  | _ =>
      match json_loads raw with
      | Some (JArr l) => omap jsonld_date_string l
      | Some data => option_list (jsonld_date_string data)
      | None => []
      end
  end.

Definition date_candidates (d : Document) : list string :=
  option_list (meta_published_time d)
  ++ option_list (time_datetime d)
  ++ option_list (meta_itemprop_date d)
  ++ concat (map jsonld_block_strings (ld_json_scripts d)).

End Program.

(** ** Further readings of values and traces *)

(** ["/".join(l)]. *)
Fixpoint join_slash (l : list string) : string :=
  match l with
  | [] => EmptyString
  | [x] => x
  | x :: l' => x +:+ "/" +:+ join_slash l'
  end.

(** The stripped value of an attribute, empty when it is missing. *)
Definition stripped (o : option string) : string :=
  match o with Some s => strip s | None => EmptyString end.

(** The first non-empty string of a list, empty when there is none. *)
Fixpoint first_truthy (l : list string) : string :=
  match l with
  | [] => EmptyString
  | x :: l' => if truthy x then x else first_truthy l'
  end.

(** The listing pages requested, in order. *)
Fixpoint index_requests (tr : list event) : list string :=
  match tr with
  | [] => []
  | EvIndex p _ :: tr' => p :: index_requests tr'
  | _ :: tr' => index_requests tr'
  end.

(** The pauses, in order. *)
Fixpoint sleeps (tr : list event) : list Z :=
  match tr with
  | [] => []
  | EvSleep s :: tr' => s :: sleeps tr'
  | _ :: tr' => sleeps tr'
  end.

(** The four characters that [html_escape] replaces. *)
Definition special (c : ascii) : bool :=
  Ascii.eqb c "&" || Ascii.eqb c "<" || Ascii.eqb c ">" || Ascii.eqb c QUOT.

(** ** A library instance and worlds to run the program on

    The instance is exact on the inputs of the examples of this file:
    absolute [https] URLs without parameters, references that are an
    absolute path or a relative directory, ASCII titles, and the
    timestamps and scripts listed in the tables. *)

Module Example.

(** [s] cut before the first character for which [stop] holds. *)
Fixpoint cut_at (stop : ascii -> bool) (s : string) : string * string :=
  match s with
  | EmptyString => (EmptyString, EmptyString)
  | String c s' =>
      if stop c then (EmptyString, s)
      else let (a, b) := cut_at stop s' in (String c a, b)
  end.

Definition is_in (cs : string) (c : ascii) : bool :=
  existsb (Ascii.eqb c) (list_ascii_of_string cs).

Definition tail (s : string) : string :=
  match s with EmptyString => EmptyString | String _ s' => s' end.

Definition urlparse (u : string) : ParseResult :=
  let (sch, r) := cut_at (is_in ":") u in
  let r := match strip_prefix "://" r with Some r' => r' | None => r end in
  let (loc, r) := cut_at (is_in "/?#") r in
  let (pth, r) := cut_at (is_in "?#") r in
  let (qry, r) :=
    match strip_prefix "?" r with
    | Some r' => cut_at (is_in "#") r'
    | None => (EmptyString, r)
    end in
  {| scheme := sch; netloc := loc; path := pth; params := EmptyString;
     query := qry; fragment := tail r |}.

Definition geturl (p : ParseResult) : string :=
  scheme p +:+ "://" +:+ netloc p +:+ path p
  +:+ (if truthy (query p) then "?" +:+ query p else EmptyString)
  +:+ (if truthy (fragment p) then "#" +:+ fragment p else EmptyString).

(** The directory of a path: up to its last [/]. *)
Definition dirname (pth : string) : string :=
  str_rev (snd (cut_at (is_in "/") (str_rev pth))).

Definition urljoin (base ref : string) : string :=
  let b := urlparse base in
  match ref with
  | String "/" _ => scheme b +:+ "://" +:+ netloc b +:+ ref
  | _ => scheme b +:+ "://" +:+ netloc b +:+ dirname (path b) +:+ ref
  end.

Definition fromisoformat (s : string) : option DateTime :=
  if bool_decide (s = "2024-05-01T10:00:00+00:00")
  then Some {| wall_clock := 1714557600000000; utcoffset := Some 0 |}
  else if bool_decide (s = "2024-05-02T09:00:00")
  then Some {| wall_clock := 1714640400000000; utcoffset := None |}
  else if bool_decide (s = "2024-04-28T08:00:00+02:00")
  then Some {| wall_clock := 1714291200000000; utcoffset := Some 7200000000 |}
  else if bool_decide (s = "2024-04-30T12:00:00+00:00")
  then Some {| wall_clock := 1714478400000000; utcoffset := Some 0 |}
  else None.

Definition json_loads (s : string) : option json :=
  if bool_decide (s = "{" +:+ quot +:+ "datePublished" +:+ quot +:+ ": "
                        +:+ quot +:+ "2024-05-01T10:00:00Z" +:+ quot +:+ "}")
  then Some (JObj [("datePublished", JStr "2024-05-01T10:00:00Z")])
  else None.

Definition lower_char (c : ascii) : ascii :=
  let n := nat_of_ascii c in
  if (65 <=? n)%nat && (n <=? 90)%nat then ascii_of_nat (n + 32) else c.

Fixpoint str_lower (s : string) : string :=
  match s with
  | EmptyString => EmptyString
  | String c s' => String (lower_char c) (str_lower s')
  end.

Definition strftime_display (t : Z) : string :=
  if t =? 1714557600000000 then "01.05.2024 12:00"
  else if t =? 1714640400000000 then "02.05.2024 11:00"
  else if t =? 1714478400000000 then "30.04.2024 14:00"
  else "01.01.1970 01:00".

Definition library : Library :=
  Build_Library urlparse geturl urljoin fromisoformat json_loads str_lower
    strftime_display.

Definition config : Config :=
  source_config (Some "123:token") (Some "@channel").

Definition index_url : string := "https://worldoftanks.eu/ru/news/".
Definition url_a : string := "https://worldoftanks.eu/ru/news/updates/a/".
Definition url_b : string := "https://worldoftanks.eu/ru/news/specials/b/".
Definition url_c : string := "https://worldoftanks.eu/ru/news/general-news/c/".

Definition anchor_a : Anchor := {| href := "/ru/news/updates/a/"; anchor_text := "Update A" |}.
Definition anchor_b : Anchor := {| href := "/ru/news/specials/b/"; anchor_text := "Sale B" |}.
Definition anchor_c : Anchor := {| href := "/ru/news/general-news/c/"; anchor_text := "News C" |}.

Definition blank : Document := {|
  meta_published_time := None; time_datetime := None; meta_itemprop_date := None;
  ld_json_scripts := []; meta_og_image := None; meta_twitter_image := None;
  meta_itemprop_image := None; meta_og_title := None; title_text := None |}.

(** An article dated by its first source. *)
Definition dated (s : string) : Document := {|
  meta_published_time := Some s; time_datetime := None; meta_itemprop_date := None;
  ld_json_scripts := []; meta_og_image := None; meta_twitter_image := None;
  meta_itemprop_image := None; meta_og_title := None; title_text := None |}.

(** 2024-05-02T12:00:00Z. *)
Definition noon : Z := 1714651200000000.

(** Page 1 lists A, B, C (newest first), the other pages are empty; the
    three articles are recent; Telegram accepts every message. *)
Definition world_abc : World := {|
  now_utc := fun _ => noon;
  now_isoformat := fun _ => "2024-05-02T12:00:00+00:00";
  get_index := fun _ u =>
    if bool_decide (u = index_url) then Some [anchor_a; anchor_b; anchor_c] else Some [];
  get_article := fun _ u =>
    if bool_decide (u = url_a) then Some (dated "2024-05-02T09:00:00")
    else if bool_decide (u = url_b) then Some (dated "2024-05-01T10:00:00+00:00")
    else if bool_decide (u = url_c) then Some (dated "2024-04-30T12:00:00+00:00")
    else None;
  telegram_post := fun _ _ => Some true |}.

Definition page2_url : string := "https://worldoftanks.eu/ru/news/p2/".

(** The article A is listed on page 1 and again on page 2. *)
Definition world_dup : World := {|
  now_utc := fun _ => noon;
  now_isoformat := fun _ => "2024-05-02T12:00:00+00:00";
  get_index := fun _ u =>
    if bool_decide (u = index_url) then Some [anchor_a]
    else if bool_decide (u = page2_url) then Some [anchor_a]
    else Some [];
  get_article := fun _ u =>
    if bool_decide (u = url_a) then Some (dated "2024-05-02T09:00:00") else None;
  telegram_post := fun _ _ => Some true |}.

(** Page 1 lists the recent article C; the request for page 2 fails. *)
Definition world_page2_down : World := {|
  now_utc := fun _ => noon;
  now_isoformat := fun _ => "2024-05-02T12:00:00+00:00";
  get_index := fun _ u =>
    if bool_decide (u = index_url) then Some [anchor_c]
    else if bool_decide (u = page2_url) then None
    else Some [];
  get_article := fun _ u =>
    if bool_decide (u = url_c) then Some (dated "2024-05-01T10:00:00+00:00") else None;
  telegram_post := fun _ _ => Some true |}.

(** The page of C is four days old, the page of B cannot be fetched,
    the page of A is recent, and Telegram refuses every message. *)
Definition world_refuse : World := {|
  now_utc := fun _ => noon;
  now_isoformat := fun _ => "2024-05-02T12:00:00+00:00";
  get_index := fun _ u =>
    if bool_decide (u = index_url) then Some [anchor_a; anchor_b; anchor_c] else Some [];
  get_article := fun _ u =>
    if bool_decide (u = url_c) then Some (dated "2024-04-28T08:00:00+02:00")
    else if bool_decide (u = url_a) then Some (dated "2024-05-02T09:00:00")
    else None;
  telegram_post := fun _ _ => Some false |}.

(** A table that holds B. *)
Definition table_b : Table :=
  [ {| rec_url := url_b; rec_title := "Sale B"; rec_tag := "specials";
       rec_posted_at := "2024-05-01T12:00:00+00:00" |} ].

Definition trace_abc : list event :=
  Eval vm_compute in trace (snd (@run_once library config world_abc [])).

(** A page dated by its JSON-LD block alone. *)
Definition jsonld_only : Document := {|
  meta_published_time := None; time_datetime := None; meta_itemprop_date := None;
  ld_json_scripts :=
    [ "{" +:+ quot +:+ "datePublished" +:+ quot +:+ ": "
      +:+ quot +:+ "2024-05-01T10:00:00Z" +:+ quot +:+ "}" ];
  meta_og_image := None; meta_twitter_image := None;
  meta_itemprop_image := None; meta_og_title := None; title_text := None |}.

(** A page whose first timestamp does not parse; the second is without
    a zone, and the JSON-LD block has a third. *)
Definition second_source : Document := {|
  meta_published_time := Some "yesterday";
  time_datetime := Some " 2024-05-02T09:00:00 ";
  meta_itemprop_date := None;
  ld_json_scripts := ld_json_scripts jsonld_only;
  meta_og_image := None; meta_twitter_image := None;
  meta_itemprop_image := None; meta_og_title := None; title_text := None |}.

(** A second link to the article A, as around its picture. *)
Definition anchor_a2 : Anchor := {| href := " /ru/news/updates/a/ "; anchor_text := "Read more" |}.

(** A link that is not an article link. *)
Definition anchor_section : Anchor := {| href := "/ru/news/updates/"; anchor_text := "Updates" |}.

(** Page 1 links twice to A, around a link to B and a link to a section. *)
Definition world_links : World := {|
  now_utc := fun _ => noon;
  now_isoformat := fun _ => "2024-05-02T12:00:00+00:00";
  get_index := fun _ u =>
    if bool_decide (u = index_url)
    then Some [anchor_a; anchor_section; anchor_b; anchor_a2]
    else Some [];
  get_article := fun _ _ => None;
  telegram_post := fun _ _ => Some true |}.

(** The page of C is four days old, the page of B cannot be fetched
    and the page of A has no date. *)
Definition world_skip : World := {|
  now_utc := fun _ => noon;
  now_isoformat := fun _ => "2024-05-02T12:00:00+00:00";
  get_index := fun _ u =>
    if bool_decide (u = index_url) then Some [anchor_a; anchor_b; anchor_c] else Some [];
  get_article := fun _ u =>
    if bool_decide (u = url_c) then Some (dated "2024-04-28T08:00:00+02:00")
    else if bool_decide (u = url_a) then Some blank
    else None;
  telegram_post := fun _ _ => Some true |}.

(** A table that holds A. *)
Definition table_a : Table :=
  [ {| rec_url := url_a; rec_title := "Update A"; rec_tag := "updates";
       rec_posted_at := "2024-05-01T12:00:00+00:00" |} ].

Definition start : State := {| trace := []; table := [] |}.


(** A page with its images and titles in the second places. *)
Definition second_places : Document := {|
  meta_published_time := None; time_datetime := None; meta_itemprop_date := None;
  ld_json_scripts := [];
  meta_og_image := Some "   ";
  meta_twitter_image := Some " https://cdn.example/pic.jpg ";
  meta_itemprop_image := Some "https://cdn.example/other.jpg";
  meta_og_title := None;
  title_text := Some "Title element" |}.

(** The configuration of the source with the cap set to zero. *)
Definition config_zero_cap : Config := {|
  BOT_TOKEN := Some "123:token"; CHANNEL := Some "@channel";
  NEWS_INDEX_URL := "https://worldoftanks.eu/ru/news/";
  MAX_POSTS_PER_RUN := 0; WINDOW_HOURS := 48; PAGES_TO_SCAN := 6;
  ARTICLES_PER_PAGE_HINT := 48; SLEEP_BETWEEN_POSTS_SEC := 2 |}.

(** The configuration of the source with no page to scan. *)
Definition config_no_pages : Config := {|
  BOT_TOKEN := Some "123:token"; CHANNEL := Some "@channel";
  NEWS_INDEX_URL := "https://worldoftanks.eu/ru/news/";
  MAX_POSTS_PER_RUN := 2; WINDOW_HOURS := 48; PAGES_TO_SCAN := 0;
  ARTICLES_PER_PAGE_HINT := 48; SLEEP_BETWEEN_POSTS_SEC := 2 |}.

End Example.


(** * Properties *)

(** ** Strings *)

Lemma append_nil_l (s : string) : EmptyString +:+ s = s.
Proof. reflexivity. Qed.

Lemma append_cons (c : ascii) (a b : string) : String c a +:+ b = String c (a +:+ b).
Proof. reflexivity. Qed.

Lemma append_nil_r (s : string) : s +:+ EmptyString = s.
Proof. induction s as [|c s IH]; [reflexivity | now rewrite append_cons, IH]. Qed.

Lemma append_assoc (a b c : string) : (a +:+ b) +:+ c = a +:+ (b +:+ c).
Proof. induction a as [|x a IH]; [reflexivity | now rewrite !append_cons, IH]. Qed.

Lemma subst_chars_app (f : ascii -> string) (a b : string) :
  subst_chars f (a +:+ b) = subst_chars f a +:+ subst_chars f b.
Proof.
  induction a as [|x a IH]; [reflexivity |].
  rewrite append_cons. cbn [subst_chars]. now rewrite IH, append_assoc.
Qed.

Lemma subst_chars_ext (f g : ascii -> string) (s : string) :
  (forall c, f c = g c) -> subst_chars f s = subst_chars g s.
Proof. intros E. induction s as [|c s IH]; cbn; [reflexivity | now rewrite E, IH]. Qed.

Lemma subst_chars_compose (f g : ascii -> string) (s : string) :
  subst_chars g (subst_chars f s) = subst_chars (fun c => subst_chars g (f c)) s.
Proof.
  induction s as [|c s IH]; cbn; [reflexivity |].
  now rewrite subst_chars_app, IH.
Qed.

(** Replacing a one-character pattern is a character-wise substitution. *)
Lemma str_replace_char (c : ascii) (new s : string) :
  str_replace (String c EmptyString) new s
  = subst_chars (fun x => if Ascii.eqb x c then new else String x EmptyString) s.
Proof.
  unfold str_replace.
  induction s as [|a s IH]; [reflexivity |].
  cbn [replace_from subst_chars String.prefix String.length Nat.pred].
  destruct (ascii_dec c a) as [->|Hne].
  - rewrite Ascii.eqb_refl. destruct s; cbn [String.prefix]; now rewrite IH.
  - destruct (Ascii.eqb_spec a c) as [->|_]; [congruence |].
    rewrite IH. reflexivity.
Qed.

Lemma list_ascii_app (a b : string) :
  list_ascii_of_string (a +:+ b) = list_ascii_of_string a ++ list_ascii_of_string b.
Proof.
  induction a as [|x a IH]; [reflexivity |].
  rewrite append_cons. cbn [list_ascii_of_string]. now rewrite IH.
Qed.

Lemma drop_last_snoc (p : string) (c : ascii) :
  drop_last (p +:+ String c EmptyString) = p.
Proof.
  unfold drop_last. rewrite list_ascii_app. cbn [list_ascii_of_string].
  rewrite removelast_last. apply string_of_list_ascii_of_string.
Qed.

Lemma endswith_snoc (p : string) (c : ascii) :
  endswith (p +:+ String c EmptyString) (String c EmptyString) = true.
Proof.
  unfold endswith, str_rev. rewrite list_ascii_app. cbn [list_ascii_of_string].
  rewrite rev_app_distr. cbn.
  destruct (ascii_dec c c); [| congruence].
  now destruct (string_of_list_ascii _).
Qed.

Lemma endswith_Z_inv (s : string) (c : ascii) :
  endswith s (String c EmptyString) = true -> exists p, s = p +:+ String c EmptyString.
Proof.
  unfold endswith, str_rev. intros H.
  destruct (list_ascii_of_string s) as [|x l] eqn:Hl using rev_ind; [discriminate |].
  clear IHl. rewrite rev_app_distr in H. cbn in H.
  destruct (ascii_dec c x) as [->|]; [| discriminate].
  exists (string_of_list_ascii l).
  rewrite <- (string_of_list_ascii_of_string s), Hl.
  rewrite <- (string_of_list_ascii_of_string (_ +:+ _)), list_ascii_app.
  now rewrite list_ascii_of_string_of_list_ascii.
Qed.

(** The four replacements of [html_escape], in their order, amount to
    replacing every character by its entity, once. *)
Lemma html_escape_subst (s : string) : html_escape s = subst_chars escape_char s.
Proof.
  unfold html_escape, quot.
  rewrite !str_replace_char, !subst_chars_compose.
  apply subst_chars_ext.
  intros [[] [] [] [] [] [] [] []]; vm_compute; reflexivity.
Qed.

Lemma occurs_app (c : ascii) (a b : string) :
  occurs c (a +:+ b) <-> occurs c a \/ occurs c b.
Proof.
  unfold occurs. induction a as [|x a IH].
  - rewrite append_nil_l. cbn. tauto.
  - rewrite append_cons. cbn [list_ascii_of_string In]. rewrite IH. tauto.
Qed.

Lemma escape_char_clean (c x : ascii) :
  occurs x (escape_char c) -> x <> "<"%char /\ x <> ">"%char /\ x <> QUOT.
Proof.
  unfold escape_char, occurs.
  destruct (Ascii.eqb_spec c "&") as [->|H1]; [cbn; intros H; repeat split; intros ->; intuition discriminate |].
  destruct (Ascii.eqb_spec c "<") as [->|H2]; [cbn; intros H; repeat split; intros ->; intuition discriminate |].
  destruct (Ascii.eqb_spec c ">") as [->|H3]; [cbn; intros H; repeat split; intros ->; intuition discriminate |].
  destruct (Ascii.eqb_spec c QUOT) as [->|H4]; [cbn; intros H; repeat split; intros ->; intuition discriminate |].
  cbn. intros [<-|[]]. auto.
Qed.

Lemma subst_escape_clean (s : string) (x : ascii) :
  occurs x (subst_chars escape_char s) -> x <> "<"%char /\ x <> ">"%char /\ x <> QUOT.
Proof.
  induction s as [|c s IH]; cbn [subst_chars].
  - intros [].
  - rewrite occurs_app. intros [H|H]; [eapply escape_char_clean; eassumption | auto].
Qed.

Section Proofs.

Context `{lib : Library}.

(** ** The loop of [run_once] *)

Lemma button_of_request_for cfg url img caption :
  button_of (request_for cfg url img caption) = url.
Proof. unfold request_for. destruct (truthy_opt img); reflexivity. Qed.

(** Whatever the world answers, the loop runs through iterations of the
    shapes listed in [iterations], over a prefix of its candidates, and
    the table changes by the writes of the trace alone. *)
Lemma publish_loop_shape cfg w cutoff cands :
  forall n st,
  exists us ext rest,
    trace (snd (publish_loop cfg w cutoff cands n st)) = trace st ++ ext
    /\ iterations w cutoff (MAX_POSTS_PER_RUN cfg) (trace st) n us ext
         (fst (publish_loop cfg w cutoff cands n st))
    /\ table (snd (publish_loop cfg w cutoff cands n st)) = apply_marks ext (table st)
    /\ List.map fst cands = us ++ rest.
Proof.
  induction cands as [|[url title_guess] cands IH]; intros n st.
  - exists [], [], []. cbn. rewrite app_nil_r. split_and!; auto. constructor.
  - cbn [publish_loop].
    destruct (Z.leb_spec (MAX_POSTS_PER_RUN cfg) n) as [Hcap|Hcap].
    { exists [], [], (List.map fst ((url, title_guess) :: cands)).
      cbn. rewrite app_nil_r. split_and!; auto. constructor. }
    unfold fetch_article_meta.
    destruct (get_article w (trace st) url) as [doc|] eqn:Hget; cbn [option_map].
    2: { match goal with |- context [publish_loop _ _ _ _ ?m ?s] =>
           destruct (IH m s) as (us & ext & rest & Ht & Hi & Htb & Hp) end.
         eexists (url :: us), (_ :: _ :: ext), rest.
         rewrite Ht, Htb. cbn in *. rewrite <- !app_assoc in *. cbn in *.
         split_and!; auto; [| now rewrite Hp].
         now apply it_unfetchable. }
    unfold article_meta.
    destruct (published_dt_of doc) as [dt|] eqn:Hdt.
    2: { match goal with |- context [publish_loop _ _ _ _ ?m ?s] =>
           destruct (IH m s) as (us & ext & rest & Ht & Hi & Htb & Hp) end.
         eexists (url :: us), (_ :: _ :: ext), rest.
         rewrite Ht, Htb. cbn in *. rewrite <- !app_assoc in *. cbn in *.
         split_and!; auto; [| now rewrite Hp].
         now apply it_undated. }
    destruct (Z.ltb_spec dt cutoff) as [Hold|Hnew].
    { match goal with |- context [publish_loop _ _ _ _ ?m ?s] =>
        destruct (IH m s) as (us & ext & rest & Ht & Hi & Htb & Hp) end.
      eexists (url :: us), (_ :: _ :: ext), rest.
      rewrite Ht, Htb. cbn in *. rewrite <- !app_assoc in *. cbn in *.
      split_and!; auto; [| now rewrite Hp].
      now apply it_stale with (t := dt). }
    unfold tg_api_post.
    match goal with |- context [telegram_post w ?tr ?req] =>
      destruct (telegram_post w tr req) as [[|]|] eqn:Hsend end.
    + match goal with |- context [publish_loop _ _ _ _ ?m ?s] =>
        destruct (IH m s) as (us & ext & rest & Ht & Hi & Htb & Hp) end.
      eexists (url :: us), (_ :: _ :: _ :: _ :: ext), rest.
      rewrite Ht, Htb. cbn in *. rewrite <- !app_assoc in *. cbn in *.
      split_and!; auto; [| now rewrite Hp].
      apply it_published with (t := dt); auto using button_of_request_for.
    + eexists [url], [_; _], (List.map fst cands).
      cbn in *. rewrite <- !app_assoc. cbn. split_and!; auto.
      apply it_refused with (t := dt); auto using button_of_request_for.
    + eexists [url], [_; _], (List.map fst cands).
      cbn in *. rewrite <- !app_assoc. cbn. split_and!; auto.
      apply it_send_raised with (t := dt); auto using button_of_request_for.
Qed.

(** ** Captions, dates and the table *)

(** C10 (escaping).  In the caption the title, or the stand-in of an
    empty title, appears with every [&], [<], [>] and double quote
    replaced by its entity [&amp;], [&lt;], [&gt;], [&quot;], once, and
    every other character as it is; none of [<], [>] and the double
    quote is left in it.  The date line and the category line that
    follow are computed from the date and the tag alone. *)
Theorem caption_escapes_title (title tag : string) (dt : option Z) :
  format_caption_style2 title tag dt
  = "📰 <b>WoT EU • НОВОСТИ</b>" +:+ nl +:+ tag_to_icon tag +:+ " <b>"
    +:+ subst_chars escape_char (py_or title "Без названия") +:+ "</b>" +:+ nl
    +:+ date_and_category tag dt +:+ hashtags_line title tag
  /\ (title <> EmptyString -> py_or title "Без названия" = title)
  /\ escape_char "&" = "&amp;" /\ escape_char "<" = "&lt;"
  /\ escape_char ">" = "&gt;" /\ escape_char QUOT = "&quot;"
  /\ (forall x, occurs x (subst_chars escape_char (py_or title "Без названия")) ->
        x <> "<"%char /\ x <> ">"%char /\ x <> QUOT).
Proof.
  split_and!; try reflexivity.
  - unfold format_caption_style2, date_and_category.
    rewrite html_escape_subst, !append_assoc. reflexivity.
  - destruct title; [congruence | reflexivity].
  - apply subst_escape_clean.
Qed.

Lemma parse_iso_datetime_falsy s : truthy s = false -> parse_iso_datetime s = None.
Proof. intros H. unfold parse_iso_datetime. now rewrite H. Qed.

Lemma head_omap_app {A B} (f : A -> option B) (l1 l2 : list A) :
  head (omap f (l1 ++ l2))
  = match head (omap f l1) with
    | Some y => Some y
    | None => head (omap f l2)
    end.
Proof. rewrite omap_app. now destruct (omap f l1). Qed.

Lemma head_omap_first {A B} (f : A -> option B) (l1 l2 : list A) (x : A) (y : B) :
  Forall (fun c => f c = None) l1 -> f x = Some y ->
  head (omap f (l1 ++ x :: l2)) = Some y.
Proof.
  intros H Hx. induction H as [|c l1 Hc _ IH]; cbn.
  - now rewrite Hx.
  - now rewrite Hc.
Qed.

Lemma head_omap_none {A B} (f : A -> option B) (l : list A) :
  Forall (fun c => f c = None) l -> head (omap f l) = None.
Proof. induction 1 as [|c l Hc _ IH]; cbn; [reflexivity | now rewrite Hc]. Qed.

Lemma first_some_head {A B C} (f : A -> option B) (g : A -> list C) (p : C -> option B)
      (l : list A) :
  (forall x, f x = head (omap p (g x))) ->
  first_some f l = head (omap p (concat (map g l))).
Proof.
  intros H. induction l as [|x l IH]; [reflexivity |].
  cbn [first_some map concat]. rewrite head_omap_app, <- H, IH. reflexivity.
Qed.

Lemma when_attr_candidates (o : option string) :
  when_attr o parse_iso_datetime None = head (omap parse_iso_datetime (option_list o)).
Proof.
  destruct o as [s|]; [| reflexivity]. cbn.
  destruct (truthy s) eqn:Hs.
  - now destruct (parse_iso_datetime s).
  - now rewrite (parse_iso_datetime_falsy s Hs).
Qed.

Lemma jsonld_object_date_candidates (obj : json) :
  jsonld_object_date obj
  = head (omap parse_iso_datetime (option_list (jsonld_date_string obj))).
Proof.
  assert (Hs : forall v,
    match v with Some (JStr s) => parse_iso_datetime s | _ => None end
    = head (omap parse_iso_datetime (option_list (json_string v)))).
  { intros [[| | | |s| |]|]; cbn; try reflexivity.
    now destruct (parse_iso_datetime s). }
  destruct obj as [| | | | | |m]; try reflexivity.
  unfold jsonld_object_date, jsonld_date_string.
  destruct (dict_get "datePublished" m) as [v|];
    unfold option_list at 2; cbn [option_rect List.filter].
  - destruct (truthy_json v); [apply (Hs (Some v)) | apply Hs].
  - apply Hs.
Qed.

Lemma jsonld_script_date_candidates (raw : string) :
  jsonld_script_date raw = head (omap parse_iso_datetime (jsonld_block_strings raw)).
Proof.
  unfold jsonld_script_date, jsonld_block_strings.
  destruct raw as [|c raw]; [reflexivity |]. cbn [truthy negb].
  destruct (json_loads (String c raw)) as [data|]; [| reflexivity].
  assert (Hone : forall o : json,
    first_some jsonld_object_date [o]
    = head (omap parse_iso_datetime (option_list (jsonld_date_string o)))).
  { intros o. cbn [first_some]. rewrite jsonld_object_date_candidates.
    now destruct (head _). }
  destruct data as [| | | | |l|]; try apply Hone.
  induction l as [|o l IH]; [reflexivity |].
  cbn [first_some omap list_omap]. rewrite jsonld_object_date_candidates, IH.
  destruct (jsonld_date_string o) as [s|]; cbn; [| reflexivity].
  now destruct (parse_iso_datetime s).
Qed.

Lemma published_dt_of_candidates (d : Document) :
  published_dt_of d = head (omap parse_iso_datetime (date_candidates d)).
Proof.
  unfold published_dt_of, date_candidates, extract_from_jsonld.
  rewrite !head_omap_app, <- !when_attr_candidates.
  rewrite <- (first_some_head jsonld_script_date jsonld_block_strings parse_iso_datetime
                (ld_json_scripts d) jsonld_script_date_candidates).
  destruct (when_attr (meta_published_time d) parse_iso_datetime None); [reflexivity |].
  destruct (when_attr (time_datetime d) parse_iso_datetime None); [reflexivity |].
  destruct (when_attr (meta_itemprop_date d) parse_iso_datetime None); reflexivity.
Qed.

(** C8 (date extraction).  The publish time is the parse of the first
    of the page's timestamps that parses, the timestamps taken in the
    fixed order: the published-time meta property, the [datetime]
    attribute of the [time] element, the [datePublished] itemprop meta,
    then the [datePublished] or [dateCreated] of the JSON-LD blocks.
    When none of them parses, the publish time is absent.  A timestamp
    that ends in [Z] is parsed as the same timestamp ending in
    [+00:00], any other as it stands after stripping, the empty one
    not at all; a timestamp without a zone, and one with the offset
    zero, denote the instant that has their wall-clock fields in UTC.
    An object of a JSON-LD block gives its [datePublished], or its
    [dateCreated] when it has no [datePublished]. *)
Theorem date_extraction_priority (d : Document) :
  published_dt_of d = head (omap parse_iso_datetime (date_candidates d))
  /\ (forall before s after t,
        date_candidates d = before ++ s :: after ->
        Forall (fun c => parse_iso_datetime c = None) before ->
        parse_iso_datetime s = Some t ->
        published_dt_of d = Some t)
  /\ (Forall (fun c => parse_iso_datetime c = None) (date_candidates d) ->
      published_dt_of d = None)
  /\ parse_iso_datetime EmptyString = None
  /\ (forall s p,
        truthy s = true ->
        strip s = p +:+ "Z" ->
        parse_iso_datetime s
        = match fromisoformat (p +:+ "+00:00") with
          | Some dt => astimezone_utc dt
          | None => None
          end)
  /\ (forall s,
        truthy s = true ->
        (forall p, strip s <> p +:+ "Z") ->
        parse_iso_datetime s
        = match fromisoformat (strip s) with
          | Some dt => astimezone_utc dt
          | None => None
          end)
  /\ (forall dt, utcoffset dt = None -> astimezone_utc dt = Some (wall_clock dt))
  /\ (forall dt,
        utcoffset dt = Some 0 ->
        DATETIME_MIN <= wall_clock dt <= DATETIME_MAX ->
        astimezone_utc dt = Some (wall_clock dt))
  /\ (forall m s,
        dict_get "datePublished" m = Some (JStr s) ->
        truthy s = true ->
        jsonld_object_date (JObj m) = parse_iso_datetime s)
  /\ (forall m s,
        dict_get "datePublished" m = None ->
        dict_get "dateCreated" m = Some (JStr s) ->
        jsonld_object_date (JObj m) = parse_iso_datetime s).
Proof.
  split_and!.
  - apply published_dt_of_candidates.
  - intros before s after t Hc Hb Hs.
    rewrite published_dt_of_candidates, Hc. now apply head_omap_first.
  - intros Hnone. rewrite published_dt_of_candidates. now apply head_omap_none.
  - reflexivity.
  - intros s p Hs Hp. unfold parse_iso_datetime. rewrite Hs, Hp. cbn [negb].
    now rewrite endswith_snoc, drop_last_snoc.
  - intros s Hs Hp. unfold parse_iso_datetime. rewrite Hs. cbn [negb].
    destruct (endswith (strip s) "Z") eqn:He; [| reflexivity].
    apply endswith_Z_inv in He as (p & He). now apply Hp in He.
  - intros dt Hz. unfold astimezone_utc. now rewrite Hz.
  - intros dt Hz [Hlo Hhi]. unfold astimezone_utc. rewrite Hz, Z.sub_0_r.
    apply Z.leb_le in Hlo, Hhi. now rewrite Hlo, Hhi.
  - intros m s Hp Hs. unfold jsonld_object_date. rewrite Hp. cbn [truthy_json].
    now rewrite Hs.
  - intros m s Hp Hc. unfold jsonld_object_date. now rewrite Hp, Hc.
Qed.

Ltac peel :=
  repeat match goal with
  | H : _ :: _ = ?l ++ _ :: _ |- _ => destruct l; simplify_eq/=
  | H : [] = ?l ++ _ :: _ |- _ => destruct l; simplify_eq/=
  end.

(** After a fetched page with a date, the next event is the Telegram
    request exactly when the date is not before the cutoff, and the
    record of a skip otherwise. *)
Lemma iterations_admission w cutoff cap h n us ext ex :
  iterations w cutoff cap h n us ext ex ->
  forall l1 u doc t l2,
    ext = l1 ++ EvArticle u (Some doc) :: l2 ->
    published_dt_of doc = Some t ->
    (cutoff <= t <->
       exists req resp l3, l2 = EvTelegram req resp :: l3 /\ button_of req = u)
    /\ (t < cutoff ->
        exists title tag ts l3, l2 = EvMark u title tag ts :: l3).
Proof.
  induction 1; intros l1 u' doc' t' l2 Heq Hdt; peel;
    try (eapply IHiterations; eauto; fail).
  - (* stale *)
    split; [split; [lia | intros (? & ? & ? & ? & ?); discriminate] | eauto 6].
  - (* published *)
    split; [split; [eauto 6 | lia] | lia].
  - (* refused *)
    split; [split; [eauto 6 | lia] | lia].
  - (* the request raised *)
    split; [split; [eauto 6 | lia] | lia].
Qed.

(** Every write to the table comes right after its reason. *)
Lemma iterations_marks_justified w cutoff cap h n us ext ex :
  iterations w cutoff cap h n us ext ex ->
  forall l1 u title tag ts l2,
    ext = l1 ++ EvMark u title tag ts :: l2 ->
    exists l0 e, l1 = l0 ++ [e] /\ justifies cutoff u e.
Proof.
  induction 1; intros l1 u' title' tag' ts' l2 Heq; peel.
  all: first
    [ destruct (IHiterations _ _ _ _ _ _ eq_refl) as (l0 & e & Hl & Hj); rewrite Hl;
      first [ eexists (_ :: _ :: l0), e; split; [reflexivity | exact Hj]
            | eexists (_ :: _ :: _ :: _ :: l0), e; split; [reflexivity | exact Hj] ]
    | eexists [], _; split; [reflexivity | cbn; eauto 6]
    | eexists [_], _; split; [reflexivity | cbn; eauto 6] ].
Qed.

(** A request that Telegram does not accept ends the run at once. *)
Lemma iterations_refusal_ends w cutoff cap h n us ext ex :
  iterations w cutoff cap h n us ext ex ->
  forall l1 req resp l2,
    ext = l1 ++ EvTelegram req resp :: l2 ->
    resp <> Some true ->
    l2 = []
    /\ ex = match resp with Some _ => ExitTelegramError | None => RaisedRequestError end.
Proof.
  induction 1; intros l1 req' resp' l2 Heq Hresp; peel;
    try (eapply IHiterations; eauto; fail); try congruence; auto.
Qed.

(** The cap: an article is fetched only while fewer than [cap] have
    been published, and at most [cap - n] are published. *)
Lemma iterations_cap w cutoff cap h n us ext ex :
  iterations w cutoff cap h n us ext ex ->
  Z.of_nat (length (published_urls ext)) <= Z.max 0 (cap - n)
  /\ forall l1 u resp l2,
       ext = l1 ++ EvArticle u resp :: l2 ->
       n + Z.of_nat (length (published_urls l1)) < cap.
Proof.
  induction 1 as [ h n | h n u title tag ts us tr ex Hn Hg Hi [IHc IHf]
                 | h n u doc title tag ts us tr ex Hn Hg Hd Hi [IHc IHf]
                 | h n u doc t title tag ts us tr ex Hn Hg Hd Ht Hi [IHc IHf]
                 | h n u doc t req title tag ts secs us tr ex Hn Hg Hd Ht Hb Hs Hi [IHc IHf]
                 | h n u doc t req Hn Hg Hd Ht Hb Hs
                 | h n u doc t req Hn Hg Hd Ht Hb Hs ];
    (split; [cbn; try lia | intros l1 u' resp' l2 Heq; peel; cbn; try lia;
                            try (specialize (IHf _ _ _ _ eq_refl); lia)]).
Qed.

(** The events of the loop are about the articles it took up. *)
Lemma iterations_urls w cutoff cap h n us ext ex :
  iterations w cutoff cap h n us ext ex ->
  forall e u, e ∈ ext -> event_url e = Some u -> u ∈ us.
Proof.
  induction 1; intros e u' Hin Hu;
    repeat (apply elem_of_cons in Hin as [-> | Hin]); simplify_eq/=;
    try (apply elem_of_nil in Hin; contradiction);
    try (left; fail); try (right; eauto; fail).
  all: try (apply elem_of_nil in Hin; contradiction).
Qed.

(** The articles published are among the articles taken up, in the
    same order. *)
Lemma iterations_published_sublist w cutoff cap h n us ext ex :
  iterations w cutoff cap h n us ext ex ->
  sublist (published_urls ext) us.
Proof.
  induction 1; cbn; subst;
    first [ now constructor | now apply sublist_cons | now apply sublist_skip
          | apply sublist_nil_l ].
Qed.

(** The trace records the answers of the world. *)
Lemma iterations_answers w cutoff cap h n us ext ex :
  iterations w cutoff cap h n us ext ex ->
  forall l1 req resp l2,
    ext = l1 ++ EvTelegram req resp :: l2 ->
    resp = telegram_post w (h ++ l1) req.
Proof.
  induction 1; intros l1 req' resp' l2 Heq; peel; try congruence;
    rewrite (IHiterations _ _ _ _ eq_refl), <- app_assoc; reflexivity.
Qed.

(** ** The table *)

Lemma urls_of_mark_posted url title tag ts (t : Table) :
  urls_of (mark_posted url title tag ts t)
  = if bool_decide (url ∈ urls_of t) then urls_of t else urls_of t ++ [url].
Proof.
  unfold mark_posted. case_bool_decide; [reflexivity |].
  unfold urls_of. now rewrite List.map_app.
Qed.

Lemma mark_posted_elem url title tag ts (t : Table) :
  url ∈ urls_of (mark_posted url title tag ts t).
Proof.
  rewrite urls_of_mark_posted. case_bool_decide; [assumption |].
  apply elem_of_app. right. apply list_elem_of_singleton. reflexivity.
Qed.

Lemma mark_posted_mono x url title tag ts (t : Table) :
  x ∈ urls_of t -> x ∈ urls_of (mark_posted url title tag ts t).
Proof.
  intros Hx. rewrite urls_of_mark_posted. case_bool_decide; [assumption |].
  apply elem_of_app. now left.
Qed.

Lemma mark_posted_NoDup url title tag ts (t : Table) :
  NoDup (urls_of t) -> NoDup (urls_of (mark_posted url title tag ts t)).
Proof.
  intros Hnd. rewrite urls_of_mark_posted. case_bool_decide; [assumption |].
  apply NoDup_app. split_and!; [assumption | | apply NoDup_singleton].
  intros x Hx Hx'. apply list_elem_of_singleton in Hx'. congruence.
Qed.

Lemma apply_marks_app (a b : list event) (t : Table) :
  apply_marks (a ++ b) t = apply_marks b (apply_marks a t).
Proof.
  revert t. induction a as [|e a IH]; intros t; [reflexivity |].
  destruct e; cbn; apply IH.
Qed.

Lemma apply_marks_index (idx : list event) (t : Table) :
  Forall is_index idx -> apply_marks idx t = t.
Proof.
  induction 1 as [|e idx He _ IH]; [reflexivity |].
  destruct e; cbn in *; try contradiction. exact IH.
Qed.

Lemma apply_marks_mono x (tr : list event) :
  forall t : Table, x ∈ urls_of t -> x ∈ urls_of (apply_marks tr t).
Proof.
  induction tr as [|e tr IH]; intros t Hx; [assumption |].
  destruct e; cbn; auto using mark_posted_mono.
Qed.

Lemma apply_marks_marked u title tag ts (tr : list event) :
  forall t : Table, EvMark u title tag ts ∈ tr -> u ∈ urls_of (apply_marks tr t).
Proof.
  induction tr as [|e tr IH]; intros t Hin.
  - now apply elem_of_nil in Hin.
  - apply elem_of_cons in Hin as [<-|Hin].
    + cbn. apply apply_marks_mono, mark_posted_elem.
    + destruct e; cbn; auto.
Qed.

Lemma apply_marks_NoDup (tr : list event) :
  forall t : Table, NoDup (urls_of t) -> NoDup (urls_of (apply_marks tr t)).
Proof.
  induction tr as [|e tr IH]; intros t Hnd; [assumption |].
  destruct e; cbn; auto using mark_posted_NoDup.
Qed.

Lemma published_urls_app (a b : list event) :
  published_urls (a ++ b) = published_urls a ++ published_urls b.
Proof.
  induction a as [|e a IH]; [reflexivity |].
  destruct e as [| |req [[|]|]| |]; cbn; now rewrite ?IH.
Qed.

Lemma published_urls_index (idx : list event) :
  Forall is_index idx -> published_urls idx = [].
Proof.
  induction 1 as [|e idx He _ IH]; [reflexivity |].
  destruct e; cbn in *; try contradiction. exact IH.
Qed.

(** ** Collecting the index *)

(** Collecting only reads the index: the table is untouched, every event
    is an index request, and the result is an exception exactly when
    one of the requests failed. *)
Lemma collect_pages_trace cfg w pages :
  forall acc st,
  exists idx,
    trace (snd (collect_pages cfg w pages acc st)) = trace st ++ idx
    /\ table (snd (collect_pages cfg w pages acc st)) = table st
    /\ Forall is_index idx
    /\ ((exists p, EvIndex p None ∈ idx)
        <-> fst (collect_pages cfg w pages acc st) = None).
Proof.
  induction pages as [|page pages IH]; intros acc st.
  - exists []. cbn. rewrite app_nil_r. repeat split; try constructor.
    + intros (p & Hp). now apply elem_of_nil in Hp.
    + discriminate.
  - cbn [collect_pages]. unfold parse_news_index_page.
    destruct (get_index w (trace st) (page_url_of cfg page)) as [anchors|] eqn:Hget.
    + match goal with |- context [if ?b then _ else _] => destruct b end.
      * eexists [_]. cbn. repeat split; try (repeat constructor).
        -- intros (p & Hp). apply list_elem_of_singleton in Hp. discriminate.
        -- discriminate.
      * match goal with |- context [collect_pages _ _ _ ?a ?s] =>
          destruct (IH a s) as (idx & Ht & Htb & Hidx & Hfail) end.
        eexists (_ :: idx). rewrite Ht, Htb. cbn. rewrite <- app_assoc. cbn.
        repeat split; [constructor; [exact I | exact Hidx] | |].
        -- intros (p & Hp). apply elem_of_cons in Hp as [Hp|Hp]; [discriminate |].
           apply Hfail. eauto.
        -- intros Hnone. apply Hfail in Hnone as (p & Hp). exists p. now right.
    + eexists [_]. cbn. repeat split; try (repeat constructor).
      eexists. left.
Qed.

Lemma split_after_index (idx ext l1 l2 : list event) (e : event) :
  Forall is_index idx ->
  ~ is_index e ->
  idx ++ ext = l1 ++ e :: l2 ->
  exists l1', l1 = idx ++ l1' /\ ext = l1' ++ e :: l2.
Proof.
  intros Hidx He. revert l1.
  induction Hidx as [|x idx Hx Hidx IH]; intros l1 Heq; cbn in Heq.
  - exists l1. auto.
  - destruct l1 as [|y l1]; cbn in Heq; simplify_eq.
    + contradiction.
    + destruct (IH l1) as (l1' & -> & ->); [assumption |]. eauto.
Qed.

(** ** The run as a whole *)

(** A run is a series of index requests followed by iterations of the
    loop over articles that are not in the table; or it stops for lack
    of configuration; or an index request fails and nothing else
    happens. *)
Lemma run_once_shape cfg w db :
  exists idx us ext,
    trace (snd (run_once cfg w db)) = idx ++ ext
    /\ Forall is_index idx
    /\ table (snd (run_once cfg w db)) = apply_marks ext db
    /\ (forall u, u ∈ us -> u ∉ urls_of db)
    /\ (forall raw,
          fst (collect_new_links_all cfg w {| trace := []; table := db |}) = Some raw ->
          exists rest, List.map fst (candidates_ordered db raw) = us ++ rest)
    /\ ((forall p, EvIndex p None ∉ idx)
          /\ iterations w (cutoff_of cfg w) (MAX_POSTS_PER_RUN cfg) idx 0 us ext
               (fst (run_once cfg w db))
        \/ idx = [] /\ ext = [] /\ fst (run_once cfg w db) = ExitMissingConfig
        \/ (exists p, EvIndex p None ∈ idx) /\ ext = []
           /\ fst (run_once cfg w db) = RaisedRequestError).
Proof.
  assert (Hnil : forall u : string, u ∈ @nil string -> u ∉ urls_of db).
  { intros u Hu. now apply elem_of_nil in Hu. }
  assert (Hall : forall raw : list (string * string),
             exists rest, List.map fst (candidates_ordered db raw) = [] ++ rest).
  { intros raw. eexists. reflexivity. }
  unfold run_once.
  destruct (negb (truthy_opt (BOT_TOKEN cfg)) || negb (truthy_opt (CHANNEL cfg))).
  { exists [], [], []. cbn. split_and!; auto. }
  cbn [trace table init_db]. unfold collect_new_links_all.
  destruct (collect_pages_trace cfg w (page_range cfg) []
              {| trace := []; table := db |}) as (idx & Ht & Htb & Hidx & Hfail).
  destruct (collect_pages cfg w (page_range cfg) [] {| trace := []; table := db |})
    as [[raw|] st] eqn:Hc; cbn [fst snd trace table] in *.
  2: { exists idx, [], []. rewrite app_nil_r. cbn. split_and!; auto.
       right. right. split_and!; auto. now apply Hfail. }
  assert (Hok : forall p, EvIndex p None ∉ idx).
  { intros p Hp. assert (Some raw = None) by (apply Hfail; eauto). discriminate. }
  destruct raw as [|c0 raw].
  { exists idx, [], []. rewrite app_nil_r. cbn. split_and!; auto.
    left. split; [assumption | constructor]. }
  remember (c0 :: raw) as raw0 eqn:Hraw. clear Hraw.
  rewrite Htb.
  set (cands := List.filter (fun c => negb (already_posted (fst c) db)) raw0).
  assert (Hnew : forall u, u ∈ List.map fst (List.rev cands) -> u ∉ urls_of db).
  { intros u Hu. apply list_elem_of_In, in_map_iff in Hu as ((u' & g) & <- & Hin).
    apply in_rev in Hin. apply filter_In in Hin as [_ Hin]. cbn in *.
    unfold already_posted in Hin.
    apply negb_true_iff, bool_decide_eq_false in Hin. exact Hin. }
  destruct cands as [|c1 cands'] eqn:Hcands.
  { exists idx, [], []. rewrite app_nil_r. cbn. split_and!; auto.
    left. split; [assumption | constructor]. }
  rewrite <- Hcands in *. clear Hcands.
  destruct (publish_loop_shape cfg w (now_utc w [] - window cfg) (List.rev cands) 0 st)
    as (us & ext & rest & Ht' & Hi & Htb' & Hp).
  exists idx, us, ext. rewrite Ht', Htb', Ht, Htb. cbn.
  split_and!; auto.
  - intros u Hu. apply Hnew. rewrite Hp. apply elem_of_app. now left.
  - intros raw' Hraw'. injection Hraw' as <-. exists rest. exact Hp.
  - left. split; [assumption |]. rewrite Ht in Hi. exact Hi.
Qed.


Lemma not_index_article u resp : ~ is_index (EvArticle u resp).
Proof. intros []. Qed.

Lemma not_index_telegram req resp : ~ is_index (EvTelegram req resp).
Proof. intros []. Qed.

Lemma not_index_mark u title tag ts : ~ is_index (EvMark u title tag ts).
Proof. intros []. Qed.

Lemma index_event_url (idx : list event) (e : event) :
  Forall is_index idx -> e ∈ idx -> event_url e = None.
Proof.
  intros Hidx He. rewrite Forall_forall in Hidx. specialize (Hidx e He).
  destruct e; cbn in *; try contradiction. reflexivity.
Qed.

(** ** The claims about a run *)

(** C1 (window correctness).  Take any run and any article whose page
    the run fetched and whose page yields the publish time [t].  The
    run sends the article to the channel exactly when the start of the
    run less [t] is at most the window, [WINDOW_HOURS] hours; where
    Telegram accepts what it is sent, that is exactly when the article
    is published.  An article older than the window is recorded in the
    table instead, and the event after its fetch is that record, not a
    message. *)
Theorem window_admission cfg w db l1 u doc t l2 :
  trace (snd (run_once cfg w db)) = l1 ++ EvArticle u (Some doc) :: l2 ->
  published_dt_of doc = Some t ->
  (now_utc w [] - t <= window cfg <->
     exists req resp l3, l2 = EvTelegram req resp :: l3 /\ button_of req = u)
  /\ ((forall h req, telegram_post w h req = Some true) ->
      (now_utc w [] - t <= window cfg <->
         exists req l3, l2 = EvTelegram req (Some true) :: l3 /\ button_of req = u))
  /\ (window cfg < now_utc w [] - t ->
      (exists title tag ts l3, l2 = EvMark u title tag ts :: l3)
      /\ u ∈ urls_of (table (snd (run_once cfg w db)))).
Proof.
  intros Htr Hdt.
  destruct (run_once_shape cfg w db)
    as (idx & us & ext & Ht & Hidx & Htb & Hnew & Hpre & Hcase).
  rewrite Ht in Htr.
  destruct (split_after_index _ _ _ _ _ Hidx (not_index_article _ _) Htr)
    as (l1' & -> & Hext).
  destruct Hcase as [[Hok Hi] | [(_ & -> & _) | (_ & -> & _)]];
    [| destruct l1'; discriminate | destruct l1'; discriminate].
  destruct (iterations_admission _ _ _ _ _ _ _ _ Hi _ _ _ _ _ Hext Hdt) as [Hin Hout].
  unfold cutoff_of in *.
  split_and!.
  - rewrite <- Hin. lia.
  - intros Hacc. split.
    + intros Hw. destruct Hin as [Hin _].
      destruct Hin as (req & resp & l3 & -> & Hb); [lia |].
      exists req, l3. split; [| exact Hb].
      rewrite (iterations_answers _ _ _ _ _ _ _ _ Hi
                 (l1' ++ [EvArticle u (Some doc)]) req resp l3), Hacc.
      * reflexivity.
      * rewrite Hext, <- app_assoc. reflexivity.
    + intros (req & l3 & -> & Hb).
      assert (now_utc w [] - window cfg <= t) by (apply Hin; eauto).
      lia.
  - intros Hw. destruct Hout as (title & tag & ts & l3 & ->); [lia |].
    split; [eauto |].
    rewrite Htb, Hext. apply apply_marks_marked with (title := title) (tag := tag) (ts := ts).
    apply elem_of_app. right. right. left.
Qed.

(** C2 (idempotent admission).  A URL that is in the table when the run
    starts is the subject of no event of the run: its page is not
    fetched, no message is built and sent for it, and no row is written
    for it; the candidates of the loop are the links that passed the
    test [already_posted] before the loop. *)
Theorem posted_urls_never_reprocessed cfg w db u :
  u ∈ urls_of (init_db db) ->
  forall e, e ∈ trace (snd (run_once cfg w db)) -> event_url e <> Some u.
Proof.
  unfold init_db. intros Hu e He Heu.
  destruct (run_once_shape cfg w db)
    as (idx & us & ext & Ht & Hidx & Htb & Hnew & Hpre & Hcase).
  rewrite Ht in He. apply elem_of_app in He as [He|He].
  - rewrite (index_event_url idx e Hidx He) in Heu. discriminate.
  - destruct Hcase as [[Hok Hi] | [(_ & -> & _) | (_ & -> & _)]];
      [| now apply elem_of_nil in He | now apply elem_of_nil in He].
    apply (Hnew u); [| exact Hu].
    eapply iterations_urls; eauto.
Qed.

(** C5 (at most the cap).  With a cap that is not negative, a run
    publishes at most [MAX_POSTS_PER_RUN] articles, and it fetches an
    article only while fewer than that have been published: once the
    counter reaches the cap the remaining candidates are left alone. *)
Theorem publishes_at_most_cap cfg w db :
  0 <= MAX_POSTS_PER_RUN cfg ->
  Z.of_nat (length (published_urls (trace (snd (run_once cfg w db)))))
    <= MAX_POSTS_PER_RUN cfg
  /\ forall l1 u resp l2,
       trace (snd (run_once cfg w db)) = l1 ++ EvArticle u resp :: l2 ->
       Z.of_nat (length (published_urls l1)) < MAX_POSTS_PER_RUN cfg.
Proof.
  intros Hcap.
  destruct (run_once_shape cfg w db)
    as (idx & us & ext & Ht & Hidx & Htb & Hnew & Hpre & Hcase).
  rewrite Ht, published_urls_app, (published_urls_index idx Hidx). cbn [app].
  split.
  - destruct Hcase as [[Hok Hi] | [(_ & -> & _) | (_ & -> & _)]]; [| cbn; lia | cbn; lia].
    destruct (iterations_cap _ _ _ _ _ _ _ _ Hi) as [Hc _]. lia.
  - intros l1 u resp l2 Htr.
    destruct (split_after_index _ _ _ _ _ Hidx (not_index_article _ _) Htr)
      as (l1' & -> & Hext).
    destruct Hcase as [[Hok Hi] | [(_ & -> & _) | (_ & -> & _)]];
      [| destruct l1'; discriminate | destruct l1'; discriminate].
    destruct (iterations_cap _ _ _ _ _ _ _ _ Hi) as [_ Hf].
    specialize (Hf _ _ _ _ Hext).
    rewrite published_urls_app, (published_urls_index idx Hidx). cbn [app]. lia.
Qed.

(** C9 (records and API errors).  The table after a run is the table
    before it plus the rows written by the run; every row is written
    right after its reason: the page of the URL could not be fetched,
    or carries no date, or a date before the cutoff, or Telegram
    accepted the message for the URL.  A request that Telegram does not
    accept is the last event of the run: the run ends with an error and
    the table is what it was when the request was made, so that the URL
    of the request is not recorded by it. *)
Theorem records_follow_publish_or_skip cfg w db :
  table (snd (run_once cfg w db)) = apply_marks (trace (snd (run_once cfg w db))) db
  /\ (forall l1 u title tag ts l2,
        trace (snd (run_once cfg w db)) = l1 ++ EvMark u title tag ts :: l2 ->
        exists l0 e, l1 = l0 ++ [e] /\ justifies (cutoff_of cfg w) u e)
  /\ (forall l1 req resp l2,
        trace (snd (run_once cfg w db)) = l1 ++ EvTelegram req resp :: l2 ->
        resp <> Some true ->
        resp = telegram_post w l1 req
        /\ l2 = []
        /\ fst (run_once cfg w db)
           = match resp with Some _ => ExitTelegramError | None => RaisedRequestError end
        /\ table (snd (run_once cfg w db)) = apply_marks l1 db
        /\ (button_of req ∉ urls_of (apply_marks l1 db) ->
            button_of req ∉ urls_of (table (snd (run_once cfg w db))))).
Proof.
  destruct (run_once_shape cfg w db)
    as (idx & us & ext & Ht & Hidx & Htb & Hnew & Hpre & Hcase).
  rewrite Ht, Htb. split_and!.
  - now rewrite apply_marks_app, (apply_marks_index idx db Hidx).
  - intros l1 u title tag ts l2 Htr.
    destruct (split_after_index _ _ _ _ _ Hidx (not_index_mark _ _ _ _) Htr)
      as (l1' & -> & Hext).
    destruct Hcase as [[Hok Hi] | [(_ & -> & _) | (_ & -> & _)]];
      [| destruct l1'; discriminate | destruct l1'; discriminate].
    destruct (iterations_marks_justified _ _ _ _ _ _ _ _ Hi _ _ _ _ _ _ Hext)
      as (l0 & e & -> & Hj).
    exists (idx ++ l0), e. now rewrite app_assoc.
  - intros l1 req resp l2 Htr Hresp.
    destruct (split_after_index _ _ _ _ _ Hidx (not_index_telegram _ _) Htr)
      as (l1' & -> & Hext).
    destruct Hcase as [[Hok Hi] | [(_ & -> & _) | (_ & -> & _)]];
      [| destruct l1'; discriminate | destruct l1'; discriminate].
    destruct (iterations_refusal_ends _ _ _ _ _ _ _ _ Hi _ _ _ _ Hext Hresp) as [-> Hex].
    split_and!.
    + eapply iterations_answers; eauto.
    + reflexivity.
    + exact Hex.
    + rewrite Hext, !apply_marks_app, (apply_marks_index idx db Hidx). reflexivity.
    + rewrite Hext, !apply_marks_app, (apply_marks_index idx db Hidx). cbn. auto.
Qed.
(** C7 (one row per URL).  A table with one row per URL stays so under
    [init_db], under [mark_posted] and over a whole run.  Recording a
    URL that has a row neither fails nor changes the table: the row
    keeps its title, tag and time; so a second record of a URL, with
    whatever title, tag and time, is without effect. *)
Theorem one_row_per_url cfg w (db : Table) (url title tag ts : string) :
  NoDup (urls_of db) ->
  NoDup (urls_of (init_db db))
  /\ NoDup (urls_of (mark_posted url title tag ts db))
  /\ (url ∈ urls_of db -> mark_posted url title tag ts db = db)
  /\ (forall title' tag' ts',
        mark_posted url title' tag' ts' (mark_posted url title tag ts db)
        = mark_posted url title tag ts db)
  /\ NoDup (urls_of (table (snd (run_once cfg w db)))).
Proof.
  intros Hnd. split_and!.
  - exact Hnd.
  - now apply mark_posted_NoDup.
  - intros Hin. unfold mark_posted. now rewrite bool_decide_eq_true_2.
  - intros title' tag' ts'. unfold mark_posted at 1.
    rewrite bool_decide_eq_true_2; [reflexivity | apply mark_posted_elem].
  - destruct (run_once_shape cfg w db) as (idx & us & ext & _ & _ & -> & _).
    now apply apply_marks_NoDup.
Qed.


(** The articles a run publishes are candidates of the loop, and they
    are published in the order of the loop: the reverse of the order of
    discovery. *)
Lemma published_oldest_first cfg w db raw :
  fst (collect_new_links_all cfg w {| trace := []; table := db |}) = Some raw ->
  sublist (published_urls (trace (snd (run_once cfg w db))))
          (List.map fst (candidates_ordered db raw)).
Proof.
  intros Hraw.
  destruct (run_once_shape cfg w db)
    as (idx & us & ext & Ht & Hidx & Htb & Hnew & Hpre & Hcase).
  destruct (Hpre raw Hraw) as (rest & ->).
  rewrite Ht, published_urls_app, (published_urls_index idx Hidx). cbn [app].
  destruct Hcase as [[Hok Hi] | [(_ & -> & _) | (_ & -> & _)]];
    [| apply sublist_nil_l | apply sublist_nil_l].
  apply sublist_inserts_r. eapply iterations_published_sublist; eauto.
Qed.

(** One iteration that publishes. *)
Lemma publish_loop_publishes cfg w cutoff url title_guess rest n st doc t :
  n < MAX_POSTS_PER_RUN cfg ->
  get_article w (trace st) url = Some doc ->
  published_dt_of doc = Some t ->
  cutoff <= t ->
  (forall h req, button_of req = url -> telegram_post w h req = Some true) ->
  exists st',
    publish_loop cfg w cutoff ((url, title_guess) :: rest) n st
    = publish_loop cfg w cutoff rest (n + 1) st'
    /\ published_urls (trace st') = published_urls (trace st) ++ [url].
Proof.
  intros Hn Hget Hdt Ht Hacc. cbn [publish_loop].
  destruct (Z.leb_spec (MAX_POSTS_PER_RUN cfg) n) as [|_]; [lia |].
  unfold fetch_article_meta. rewrite Hget. cbn [option_map]. unfold article_meta.
  rewrite Hdt. destruct (Z.ltb_spec t cutoff) as [|_]; [lia |].
  unfold tg_api_post. rewrite Hacc by apply button_of_request_for.
  eexists. split; [reflexivity |].
  cbn. rewrite !published_urls_app. cbn. rewrite button_of_request_for.
  now rewrite !app_nil_r.
Qed.

(** At the cap the loop ends. *)
Lemma publish_loop_capped cfg w cutoff cands n st :
  MAX_POSTS_PER_RUN cfg <= n ->
  publish_loop cfg w cutoff cands n st = (Returned, st).
Proof.
  intros Hn. destruct cands as [|[u g] cands]; [reflexivity |].
  cbn [publish_loop]. destruct (Z.leb_spec (MAX_POSTS_PER_RUN cfg) n); [reflexivity | lia].
Qed.

(** C6 (oldest first).  Let the index give the links A, B, C in this
    order, none of them in the table, let the cap be 2, let the pages of
    B and C carry a date inside the window and let Telegram accept
    their messages.  Then the run publishes C and then B, and nothing
    else. *)
Theorem publishes_oldest_first cfg w db (a b c ta tb tc : string) :
  truthy_opt (BOT_TOKEN cfg) = true ->
  truthy_opt (CHANNEL cfg) = true ->
  MAX_POSTS_PER_RUN cfg = 2 ->
  fst (collect_new_links_all cfg w {| trace := []; table := db |})
    = Some [(a, ta); (b, tb); (c, tc)] ->
  a ∉ urls_of db -> b ∉ urls_of db -> c ∉ urls_of db ->
  (forall u h, u = b \/ u = c ->
     exists doc t, get_article w h u = Some doc /\ published_dt_of doc = Some t
                   /\ now_utc w [] - t <= window cfg) ->
  (forall u h req, u = b \/ u = c -> button_of req = u ->
     telegram_post w h req = Some true) ->
  published_urls (trace (snd (run_once cfg w db))) = [c; b].
Proof.
  intros Htok Hch Hcap Hraw Ha Hb Hc Hart Hacc.
  unfold run_once. rewrite Htok, Hch. cbn [negb orb trace table init_db].
  unfold collect_new_links_all in *.
  destruct (collect_pages_trace cfg w (page_range cfg) []
              {| trace := []; table := db |}) as (idx & Ht & Htb & Hidx & _).
  destruct (collect_pages cfg w (page_range cfg) [] {| trace := []; table := db |})
    as [r st]. cbn [fst snd] in *. subst r. cbn in Ht.
  cbn [List.filter fst]. unfold already_posted. rewrite Htb.
  rewrite !bool_decide_eq_false_2 by assumption. cbn [negb List.rev app].
  destruct (Hart c (trace st) (or_intror eq_refl)) as (dc & t1 & Hg1 & Hd1 & Hw1).
  destruct (publish_loop_publishes cfg w (now_utc w [] - window cfg) c tc
              [(b, tb); (a, ta)] 0 st dc t1) as (st1 & -> & Hp1);
    try assumption; try lia.
  { intros h req Hbtn. apply (Hacc c); auto. }
  destruct (Hart b (trace st1) (or_introl eq_refl)) as (db' & t2 & Hg2 & Hd2 & Hw2).
  destruct (publish_loop_publishes cfg w (now_utc w [] - window cfg) b tb
              [(a, ta)] (0 + 1) st1 db' t2) as (st2 & -> & Hp2);
    try assumption; try lia.
  { intros h req Hbtn. apply (Hacc b); auto. }
  rewrite publish_loop_capped by lia. cbn [snd].
  rewrite Hp2, Hp1, Ht, (published_urls_index idx Hidx). reflexivity.
Qed.

Lemma iterations_no_index w cutoff cap h n us ext ex :
  iterations w cutoff cap h n us ext ex ->
  forall e, e ∈ ext -> ~ is_index e.
Proof.
  induction 1; intros e Hin;
    repeat (apply elem_of_cons in Hin as [-> | Hin]); cbn; auto;
    now apply elem_of_nil in Hin.
Qed.

(** The collector stops at the first request that fails: up to it every
    request was answered, and it is the last one. *)
Lemma collect_pages_failure_last cfg w pages :
  forall acc st,
  exists idx,
    trace (snd (collect_pages cfg w pages acc st)) = trace st ++ idx
    /\ match fst (collect_pages cfg w pages acc st) with
       | Some _ => Forall index_ok idx
       | None => exists l p, idx = l ++ [EvIndex p None] /\ Forall index_ok l
       end.
Proof.
  induction pages as [|page pages IH]; intros acc st.
  - exists []. cbn. rewrite app_nil_r. split; [reflexivity | constructor].
  - cbn [collect_pages]. unfold parse_news_index_page.
    destruct (get_index w (trace st) (page_url_of cfg page)) as [anchors|] eqn:Hget.
    + match goal with |- context [if ?b then _ else _] => destruct b end.
      * eexists [_]. cbn. split; [reflexivity |]. repeat constructor.
      * match goal with |- context [collect_pages _ _ _ ?a ?s] =>
          destruct (IH a s) as (idx & Ht & Hres) end.
        exists (EvIndex (page_url_of cfg page) (Some anchors) :: idx).
        rewrite Ht. cbn. rewrite <- app_assoc. split; [reflexivity |].
        match goal with |- context [collect_pages _ _ _ ?a ?s] =>
          destruct (fst (collect_pages cfg w pages a s)) end.
        -- constructor; [exact I | exact Hres].
        -- destruct Hres as (l & q & -> & Hl).
           exists (EvIndex (page_url_of cfg page) (Some anchors) :: l), q.
           split; [reflexivity |]. constructor; [exact I | exact Hl].
    + exists [EvIndex (page_url_of cfg page) None]. cbn. split; [reflexivity |].
      exists [], (page_url_of cfg page). split; [reflexivity | constructor].
Qed.

(** C4, as the program has it.  A request for a listing page that fails
    ends the run with the exception.  The failed request is the last
    event of the run and every request before it was a request for a
    listing page that was answered: collection stops there, no further
    page is requested, the collector returns no links, so that the
    links of the pages read before are dropped; no article is fetched
    or published, and the table is what it was. *)
Theorem listing_failure_ends_run cfg w db p :
  EvIndex p None ∈ trace (snd (run_once cfg w db)) ->
  fst (run_once cfg w db) = RaisedRequestError
  /\ (exists l,
        trace (snd (run_once cfg w db)) = l ++ [EvIndex p None]
        /\ Forall index_ok l)
  /\ fst (collect_new_links_all cfg w {| trace := []; table := db |}) = None
  /\ Forall is_index (trace (snd (run_once cfg w db)))
  /\ published_urls (trace (snd (run_once cfg w db))) = []
  /\ table (snd (run_once cfg w db)) = db.
Proof.
  intros Hin.
  assert (Hok : forall l, Forall index_ok l -> EvIndex p None ∉ l).
  { intros l Hl Hp. rewrite Forall_forall in Hl. exact (Hl _ Hp). }
  unfold run_once in *.
  destruct (negb (truthy_opt (BOT_TOKEN cfg)) || negb (truthy_opt (CHANNEL cfg))).
  { now apply elem_of_nil in Hin. }
  cbn [trace table init_db] in *. unfold collect_new_links_all in *.
  destruct (collect_pages_trace cfg w (page_range cfg) []
              {| trace := []; table := db |}) as (idx0 & Ht0 & Htb & Hidx & _).
  destruct (collect_pages_failure_last cfg w (page_range cfg) []
              {| trace := []; table := db |}) as (idx & Ht & Hres).
  cbn [trace app] in Ht, Ht0. rewrite Ht in Ht0. subst idx0.
  destruct (collect_pages cfg w (page_range cfg) [] {| trace := []; table := db |})
    as [[raw|] st]; cbn [fst snd trace table] in *.
  - exfalso.
    assert (Hidxonly : EvIndex p None ∉ trace st) by (rewrite Ht; now apply Hok).
    destruct raw as [|c raw]; [contradiction |].
    match type of Hin with context [List.filter ?f (c :: raw)] =>
      destruct (List.filter f (c :: raw)) as [|c' cands] eqn:Hf end;
      [contradiction |].
    rewrite <- Hf in *. clear Hf.
    match type of Hin with context [publish_loop _ _ ?co ?cs 0 st] =>
      destruct (publish_loop_shape cfg w co cs 0 st) as (us & ext & rest & Ht' & Hi & _)
    end.
    rewrite Ht' in Hin. apply elem_of_app in Hin as [Hin | Hin]; [contradiction |].
    apply (iterations_no_index _ _ _ _ _ _ _ _ Hi) in Hin. destruct Hin. exact I.
  - destruct Hres as (l & q & -> & Hl).
    rewrite Ht in *.
    apply elem_of_app in Hin as [Hin | Hin]; [now apply Hok in Hin |].
    apply list_elem_of_singleton in Hin. injection Hin as ->.
    split_and!; auto using published_urls_index. eauto.
Qed.

(** The loop marked [unique keep order] gives each key once. *)
Lemma unique_keep_order_spec {A} (key : A -> string) (l : list A) :
  forall seen,
    NoDup (List.map key (unique_keep_order key seen l))
    /\ forall x, x ∈ unique_keep_order key seen l -> (key x ∉ seen) /\ (x ∈ l).
Proof.
  induction l as [|y l IH]; intros seen; cbn [unique_keep_order].
  - split; [constructor |]. intros x Hx. now apply elem_of_nil in Hx.
  - case_bool_decide as Hy.
    + destruct (IH seen) as [Hnd Hin]. split; [exact Hnd |].
      intros x Hx. destruct (Hin x Hx). split; [assumption | now right].
    + destruct (IH ({[key y]} ∪ seen)) as [Hnd Hin]. split.
      * cbn. apply NoDup_cons. split; [| exact Hnd].
        intros Hk. apply list_elem_of_fmap in Hk as (x & Hkx & Hx).
        destruct (Hin x Hx) as [Hns _]. apply Hns. rewrite <- Hkx.
        apply elem_of_union. left. now apply elem_of_singleton.
      * intros x Hx. apply elem_of_cons in Hx as [->|Hx]; [split; [assumption | now left] |].
        destruct (Hin x Hx) as [Hns Hxl]. split; [| now right].
        intros Hs. apply Hns, elem_of_union. now right.
Qed.

(** Within one listing page no URL comes twice. *)
Lemma parse_news_index_page_NoDup w page_url st items :
  fst (parse_news_index_page w page_url st) = Some items ->
  NoDup (List.map fst items).
Proof.
  unfold parse_news_index_page.
  destruct (get_index w (trace st) page_url); cbn; [| discriminate].
  intros [= <-]. apply unique_keep_order_spec.
Qed.
End Proofs.

(** * The program on the example worlds *)

Section Examples.

Import Example.
Existing Instance Example.library.

Example strip_ex :
  strip (" " +:+ nl +:+ " 2024-05-01T10:00:00Z " +:+ nl) = "2024-05-01T10:00:00Z".
Proof. vm_compute. reflexivity. Qed.

Example escape_ex :
  html_escape ("a<b>&" +:+ quot +:+ "c&lt;") = "a&lt;b&gt;&amp;&quot;c&amp;lt;".
Proof. vm_compute. reflexivity. Qed.

Example article_path_ex1 :
  article_path_match "/ru/news/updates/patch-1-25/" = Some ("updates", "patch-1-25").
Proof. vm_compute. reflexivity. Qed.

Example article_path_ex2 : article_path_match "/ru/news/updates/" = None.
Proof. vm_compute. reflexivity. Qed.

Example article_path_ex3 : article_path_match "/ru/news/a/b/c/" = None.
Proof. vm_compute. reflexivity. Qed.

Example parse_z_ex : parse_iso_datetime "2024-05-01T10:00:00Z" = Some 1714557600000000.
Proof. vm_compute. reflexivity. Qed.

Example parse_offset_ex :
  parse_iso_datetime "2024-04-28T08:00:00+02:00" = Some 1714284000000000.
Proof. vm_compute. reflexivity. Qed.

Example jsonld_only_ex : published_dt_of jsonld_only = Some 1714557600000000.
Proof. vm_compute. reflexivity. Qed.

Example undated_ex : published_dt_of blank = None.
Proof. vm_compute. reflexivity. Qed.

Example date_candidates_ex :
  date_candidates second_source
  = ["yesterday"; " 2024-05-02T09:00:00 "; "2024-05-01T10:00:00Z"]
  /\ parse_iso_datetime "yesterday" = None
  /\ published_dt_of second_source = Some 1714640400000000.
Proof. vm_compute. repeat split. Qed.

Example window_default_ex (token channel : option string) :
  window (source_config token channel) = 48 * 3600 * 1000000.
Proof. reflexivity. Qed.

Example run_abc_ex :
  published_urls (trace (snd (run_once config world_abc []))) = [url_c; url_b].
Proof. vm_compute. reflexivity. Qed.

Example run_refuse_ex :
  fst (run_once config world_refuse []) = ExitTelegramError
  /\ published_urls (trace (snd (run_once config world_refuse []))) = []
  /\ urls_of (table (snd (run_once config world_refuse []))) = [url_c; url_b].
Proof. vm_compute. auto. Qed.

End Examples.

(** * The claims on the example worlds *)

Section Witnesses.

Import Example.
Existing Instance Example.library.

(** C3 on the program.  With the article A on page 1 and on page 2,
    the collector returns its link twice, and the run, with its cap of
    two, publishes A twice. *)
Theorem collect_repeats_across_pages :
  fst (collect_new_links_all config world_dup {| trace := []; table := [] |})
  = Some [(url_a, "Update A"); (url_a, "Update A")]
  /\ ~ NoDup (List.map fst [(url_a, "Update A"); (url_a, "Update A")])
  /\ published_urls (trace (snd (run_once config world_dup []))) = [url_a; url_a].
Proof.
  split_and!; [vm_compute; reflexivity | | vm_compute; reflexivity].
  cbn. intros Hnd. apply NoDup_cons in Hnd as [Hnd _]. apply Hnd. left.
Qed.

(** C4, as the specification has it, fails.  Page 1 lists the recent
    article C and the request for page 2 fails: the run does not go on
    with C, it ends with the exception after the two index requests,
    with nothing fetched, published or recorded. *)
Lemma listing_failure_drops_everything :
  run_once config world_page2_down []
  = (RaisedRequestError,
     {| trace := [EvIndex index_url (Some [anchor_c]); EvIndex page2_url None];
        table := [] |})
  /\ fst (run_once config world_page2_down []) <> Returned
  /\ published_urls (trace (snd (run_once config world_page2_down []))) = [].
Proof. vm_compute. split_and!; [reflexivity | discriminate | reflexivity]. Qed.

(** C1 on [world_abc]: the article C, exactly 48 hours old, is sent. *)
Lemma window_admission_witness :
  trace (snd (run_once config world_abc []))
  = take 6 trace_abc
    ++ EvArticle url_c (Some (dated "2024-04-30T12:00:00+00:00")) :: drop 7 trace_abc
  /\ published_dt_of (dated "2024-04-30T12:00:00+00:00") = Some 1714478400000000
  /\ ((now_utc world_abc [] - 1714478400000000 <= window config <->
         exists req resp l3,
           drop 7 trace_abc = EvTelegram req resp :: l3 /\ button_of req = url_c)
      /\ ((forall h req, telegram_post world_abc h req = Some true) ->
          (now_utc world_abc [] - 1714478400000000 <= window config <->
             exists req l3,
               drop 7 trace_abc = EvTelegram req (Some true) :: l3
               /\ button_of req = url_c))
      /\ (window config < now_utc world_abc [] - 1714478400000000 ->
          (exists title tag ts l3, drop 7 trace_abc = EvMark url_c title tag ts :: l3)
          /\ url_c ∈ urls_of (table (snd (run_once config world_abc []))))).
Proof.
  split; [vm_compute; reflexivity |].
  split; [vm_compute; reflexivity |].
  apply (window_admission config world_abc [] (take 6 trace_abc) url_c
           (dated "2024-04-30T12:00:00+00:00") 1714478400000000 (drop 7 trace_abc));
    vm_compute; reflexivity.
Defined.

(** C2 on [world_abc] with B in the table. *)
Lemma posted_urls_never_reprocessed_witness :
  url_b ∈ urls_of (init_db table_b)
  /\ forall e, e ∈ trace (snd (run_once config world_abc table_b)) ->
       event_url e <> Some url_b.
Proof.
  split; [left |].
  apply (posted_urls_never_reprocessed config world_abc table_b url_b). left.
Defined.

(** C5 on [world_abc], with the cap of the source. *)
Lemma publishes_at_most_cap_witness :
  0 <= MAX_POSTS_PER_RUN config
  /\ (Z.of_nat (length (published_urls (trace (snd (run_once config world_abc [])))))
        <= MAX_POSTS_PER_RUN config
      /\ forall l1 u resp l2,
           trace (snd (run_once config world_abc [])) = l1 ++ EvArticle u resp :: l2 ->
           Z.of_nat (length (published_urls l1)) < MAX_POSTS_PER_RUN config).
Proof.
  split; [vm_compute; discriminate |].
  apply (publishes_at_most_cap config world_abc []). vm_compute. discriminate.
Defined.

(** C6 on [world_abc]: C, then B; A waits for the next run. *)
Lemma publishes_oldest_first_witness :
  truthy_opt (BOT_TOKEN config) = true
  /\ truthy_opt (CHANNEL config) = true
  /\ MAX_POSTS_PER_RUN config = 2
  /\ fst (collect_new_links_all config world_abc {| trace := []; table := [] |})
     = Some [(url_a, "Update A"); (url_b, "Sale B"); (url_c, "News C")]
  /\ published_urls (trace (snd (run_once config world_abc []))) = [url_c; url_b].
Proof.
  split; [reflexivity |]. split; [reflexivity |]. split; [reflexivity |].
  split; [vm_compute; reflexivity |].
  apply (publishes_oldest_first config world_abc [] url_a url_b url_c
           "Update A" "Sale B" "News C").
  - reflexivity.
  - reflexivity.
  - reflexivity.
  - vm_compute. reflexivity.
  - apply not_elem_of_nil.
  - apply not_elem_of_nil.
  - apply not_elem_of_nil.
  - intros u h [-> | ->].
    + exists (dated "2024-05-01T10:00:00+00:00"), 1714557600000000.
      split; [reflexivity |]. split; [vm_compute; reflexivity |].
      vm_compute. discriminate.
    + exists (dated "2024-04-30T12:00:00+00:00"), 1714478400000000.
      split; [reflexivity |]. split; [vm_compute; reflexivity |].
      vm_compute. discriminate.
  - reflexivity.
Defined.

(** C7 on the table that holds B. *)
Lemma one_row_per_url_witness :
  NoDup (urls_of table_b)
  /\ (NoDup (urls_of (init_db table_b))
      /\ NoDup (urls_of (mark_posted url_b "Other title" "news" "2024-05-02T12:00:00+00:00"
                           table_b))
      /\ (url_b ∈ urls_of table_b ->
          mark_posted url_b "Other title" "news" "2024-05-02T12:00:00+00:00" table_b
          = table_b)
      /\ (forall title' tag' ts',
            mark_posted url_b title' tag' ts'
              (mark_posted url_b "Other title" "news" "2024-05-02T12:00:00+00:00" table_b)
            = mark_posted url_b "Other title" "news" "2024-05-02T12:00:00+00:00" table_b)
      /\ NoDup (urls_of (table (snd (run_once config world_abc table_b))))).
Proof.
  split; [apply NoDup_singleton |].
  apply (one_row_per_url config world_abc table_b). apply NoDup_singleton.
Defined.

(** C4, as the program has it, on [world_page2_down]. *)
Lemma listing_failure_ends_run_witness :
  EvIndex page2_url None ∈ trace (snd (run_once config world_page2_down []))
  /\ (fst (run_once config world_page2_down []) = RaisedRequestError
      /\ (exists l,
            trace (snd (run_once config world_page2_down [])) = l ++ [EvIndex page2_url None]
            /\ Forall index_ok l)
      /\ fst (collect_new_links_all config world_page2_down
                {| trace := []; table := [] |}) = None
      /\ Forall is_index (trace (snd (run_once config world_page2_down [])))
      /\ published_urls (trace (snd (run_once config world_page2_down []))) = []
      /\ table (snd (run_once config world_page2_down [])) = []).
Proof.
  assert (H : EvIndex page2_url None
              ∈ trace (snd (run_once config world_page2_down []))).
  { vm_compute. right. left. }
  split; [exact H |].
  apply (listing_failure_ends_run config world_page2_down [] page2_url H).
Defined.

End Witnesses.

(** * Further properties *)

(** ** Escaping *)

Lemma length_append (a b : string) :
  String.length (a +:+ b) = (String.length a + String.length b)%nat.
Proof.
  induction a as [|x a IH]; [reflexivity |].
  rewrite append_cons. cbn [String.length]. now rewrite IH.
Qed.

Lemma escape_char_cases (c : ascii) :
  (special c = false /\ escape_char c = String c EmptyString)
  \/ (c = "&"%char /\ escape_char c = "&amp;")
  \/ (c = "<"%char /\ escape_char c = "&lt;")
  \/ (c = ">"%char /\ escape_char c = "&gt;")
  \/ (c = QUOT /\ escape_char c = "&quot;").
Proof.
  unfold special, escape_char.
  destruct (Ascii.eqb_spec c "&") as [->|]; [right; left; auto |].
  destruct (Ascii.eqb_spec c "<") as [->|]; [right; right; left; auto |].
  destruct (Ascii.eqb_spec c ">") as [->|]; [right; right; right; left; auto |].
  destruct (Ascii.eqb_spec c QUOT) as [->|]; [right; right; right; right; auto |].
  left. auto.
Qed.

Lemma special_false (c : ascii) :
  special c = false ->
  c <> "&"%char /\ c <> "<"%char /\ c <> ">"%char /\ c <> QUOT.
Proof.
  unfold special. intros H. split_and!; intros ->; discriminate.
Qed.

Lemma length_subst_escape (s : string) :
  (String.length s <= String.length (subst_chars escape_char s))%nat.
Proof.
  induction s as [|c s IH]; [reflexivity |].
  cbn [subst_chars]. rewrite length_append.
  destruct (escape_char_cases c) as [[_ ->] | [[_ ->] | [[_ ->] | [[_ ->] | [_ ->]]]]];
    cbn [String.length]; lia.
Qed.

(** X1 (escaping and concatenation).  Escaping a concatenation gives the
    concatenation of the escaped parts: a caption may be escaped piece
    by piece or as a whole. *)
Theorem html_escape_app (a b : string) :
  html_escape (a +:+ b) = html_escape a +:+ html_escape b.
Proof. rewrite !html_escape_subst. apply subst_chars_app. Qed.

(** X2 (fixed points of escaping).  [html_escape] leaves a string as it
    is exactly when the string has none of [&], [<], [>] and the double
    quote; so escaping an escaped string changes it as soon as the
    first escape did. *)
Theorem html_escape_fixed_iff (s : string) :
  html_escape s = s <-> forall c, occurs c s -> special c = false.
Proof.
  rewrite html_escape_subst. induction s as [|c s IH].
  - split; [intros _ x [] | reflexivity].
  - cbn [subst_chars]. unfold occurs in *. cbn [list_ascii_of_string In].
    pose proof (length_subst_escape s) as Hlen.
    destruct (escape_char_cases c) as [[Hc ->] | [[-> ->] | [[-> ->] | [[-> ->] | [-> ->]]]]];
      rewrite ?append_cons, ?append_nil_l.
    + split.
      * intros [= Hs] x [<- | Hx]; [exact Hc | now apply IH].
      * intros H. f_equal. apply IH. intros x Hx. apply H. now right.
    + split; [| intros H; specialize (H _ (or_introl eq_refl)); discriminate].
      intros [= Hs]. apply (f_equal String.length) in Hs.
      cbn [String.length] in Hs. lia.
    + split; [intros [=] | intros H; specialize (H _ (or_introl eq_refl)); discriminate].
    + split; [intros [=] | intros H; specialize (H _ (or_introl eq_refl)); discriminate].
    + split; [intros [=] | intros H; specialize (H _ (or_introl eq_refl)); discriminate].
Qed.

(** X3 (escaping loses nothing).  Different strings have different
    escaped forms. *)
Theorem html_escape_injective (s1 s2 : string) :
  html_escape s1 = html_escape s2 -> s1 = s2.
Proof.
  rewrite !html_escape_subst. revert s2.
  induction s1 as [|c1 s1 IH]; intros [|c2 s2]; cbn [subst_chars]; intros H.
  - reflexivity.
  - destruct (escape_char_cases c2) as [[_ E] | [[_ E] | [[_ E] | [[_ E] | [_ E]]]]];
      rewrite E, append_cons in H; discriminate.
  - destruct (escape_char_cases c1) as [[_ E] | [[_ E] | [[_ E] | [[_ E] | [_ E]]]]];
      rewrite E, append_cons in H; discriminate.
  - destruct (escape_char_cases c1) as [[H1 E1] | [[-> E1] | [[-> E1] | [[-> E1] | [-> E1]]]]];
      destruct (escape_char_cases c2) as [[H2 E2] | [[-> E2] | [[-> E2] | [[-> E2] | [-> E2]]]]];
      rewrite ?E1, ?E2 in H; rewrite ?append_cons, ?append_nil_l in H;
      try apply special_false in H1; try apply special_false in H2;
      simplify_eq; try (f_equal; apply IH; assumption); try tauto.
Qed.

(** ** The shape of an article path *)

Lemma strip_prefix_sound (p s r : string) :
  strip_prefix p s = Some r -> s = p +:+ r.
Proof.
  revert s. induction p as [|a p IH]; intros s H; cbn in H.
  - now injection H as ->.
  - destruct s as [|b s]; [discriminate |].
    destruct (Ascii.eqb_spec a b) as [->|]; [| discriminate].
    rewrite append_cons. f_equal. now apply IH.
Qed.

Lemma strip_prefix_app (p r : string) : strip_prefix p (p +:+ r) = Some r.
Proof.
  induction p as [|a p IH]; [reflexivity |].
  rewrite append_cons. cbn. now rewrite Ascii.eqb_refl.
Qed.

Lemma string_of_list_ascii_app (a b : list ascii) :
  string_of_list_ascii (a ++ b) = string_of_list_ascii a +:+ string_of_list_ascii b.
Proof.
  induction a as [|x a IH]; [reflexivity |].
  cbn [app string_of_list_ascii]. now rewrite IH, append_cons.
Qed.

Lemma str_rev_cons (c : ascii) (s : string) :
  str_rev (String c s) = str_rev s +:+ String c EmptyString.
Proof. unfold str_rev. cbn [list_ascii_of_string List.rev]. apply string_of_list_ascii_app. Qed.

Lemma occurs_str_rev (c : ascii) (s : string) : occurs c (str_rev s) <-> occurs c s.
Proof.
  unfold occurs, str_rev. rewrite list_ascii_of_string_of_list_ascii.
  symmetry. apply in_rev.
Qed.

Lemma split_slash_nonempty (cur s : string) : split_slash cur s <> [].
Proof.
  revert cur. induction s as [|c s IH]; intros cur; cbn; [discriminate |].
  destruct (Ascii.eqb c "/"); [discriminate | apply IH].
Qed.

Lemma join_slash_cons (x : string) (l : list string) :
  l <> [] -> join_slash (x :: l) = x +:+ "/" +:+ join_slash l.
Proof. destruct l; [congruence | reflexivity]. Qed.

(** Cutting at [/] and joining with [/] gives the string back. *)
Lemma split_slash_join (s : string) :
  forall cur, join_slash (split_slash cur s) = str_rev cur +:+ s.
Proof.
  induction s as [|c s IH]; intros cur; cbn [split_slash].
  - cbn. now rewrite append_nil_r.
  - destruct (Ascii.eqb_spec c "/") as [->|Hc].
    + rewrite join_slash_cons by apply split_slash_nonempty.
      rewrite IH. reflexivity.
    + rewrite IH, str_rev_cons, append_assoc. reflexivity.
Qed.

Lemma split_slash_clean (x : string) (s : string) :
  forall cur, ~ occurs "/" cur -> x ∈ split_slash cur s -> ~ occurs "/" x.
Proof.
  induction s as [|c s IH]; intros cur Hcur Hx; cbn [split_slash] in Hx.
  - apply list_elem_of_singleton in Hx as ->. now rewrite occurs_str_rev.
  - destruct (Ascii.eqb_spec c "/") as [->|Hc].
    + apply elem_of_cons in Hx as [-> | Hx]; [now rewrite occurs_str_rev |].
      apply (IH EmptyString); [intros [] | exact Hx].
    + apply (IH (String c cur)); [| exact Hx].
      unfold occurs. cbn. intros [Heq | Hin]; [congruence | now apply Hcur].
Qed.

Lemma split_slash_segment (a : string) :
  ~ occurs "/" a ->
  forall cur,
    split_slash cur a = [str_rev cur +:+ a]
    /\ forall b, split_slash cur (a +:+ String "/" b)
                 = (str_rev cur +:+ a) :: split_slash EmptyString b.
Proof.
  induction a as [|c a IH]; intros Ha cur.
  - rewrite append_nil_r. split; [reflexivity |]. intros b. reflexivity.
  - assert (Hc : c <> "/"%char) by (intros ->; apply Ha; now left).
    assert (Ha' : ~ occurs "/" a) by (intros H; apply Ha; now right).
    destruct (IH Ha' (String c cur)) as [H1 H2].
    split; [| intros b; rewrite append_cons]; cbn [split_slash];
      (destruct (Ascii.eqb_spec c "/"); [congruence |]);
      rewrite ?H1, ?H2, str_rev_cons, append_assoc; reflexivity.
Qed.

Lemma split_slash_segment0 (a : string) :
  ~ occurs "/" a ->
  split_slash EmptyString a = [a]
  /\ forall b, split_slash EmptyString (a +:+ String "/" b)
               = a :: split_slash EmptyString b.
Proof. intros Ha. exact (split_slash_segment a Ha EmptyString). Qed.

Lemma article_path_match_sound (s cat slug : string) :
  article_path_match s = Some (cat, slug) ->
  truthy cat = true /\ truthy slug = true
  /\ ~ occurs "/" cat /\ ~ occurs "/" slug
  /\ (s = "/ru/news/" +:+ cat +:+ "/" +:+ slug
      \/ s = "/ru/news/" +:+ cat +:+ "/" +:+ slug +:+ "/"
      \/ s = "/ru/news/" +:+ cat +:+ "/" +:+ slug +:+ "/" +:+ nl).
Proof.
  unfold article_path_match.
  destruct (strip_prefix "/ru/news/" s) as [rest|] eqn:Hp; [| discriminate].
  apply strip_prefix_sound in Hp. subst s.
  assert (Hj : join_slash (split_slash EmptyString rest) = rest)
    by apply (split_slash_join rest EmptyString).
  assert (Hcl : forall x, x ∈ split_slash EmptyString rest -> ~ occurs "/" x).
  { intros x. apply split_slash_clean. intros []. }
  destruct (split_slash EmptyString rest) as [|x1 [|x2 [|x3 [|x4 l]]]];
    try discriminate.
  + rewrite <- Hj. clear Hj.
    destruct (truthy x1) eqn:H1, (truthy x2) eqn:H2; try discriminate.
    intros [= <- <-].
    split_and!; [assumption | assumption | apply Hcl; set_solver
                | apply Hcl; set_solver | left; reflexivity].
  + rewrite <- Hj. clear Hj.
    destruct (truthy x1) eqn:H1, (truthy x2) eqn:H2; try discriminate.
    cbn [andb].
    destruct (decide (x3 = EmptyString)) as [-> | Hne];
      [| destruct (decide (x3 = nl)) as [-> | Hne']].
    * intros [= <- <-].
      split_and!; [assumption | assumption | apply Hcl; set_solver
                  | apply Hcl; set_solver | right; left; reflexivity].
    * intros [= <- <-].
      split_and!; [assumption | assumption | apply Hcl; set_solver
                  | apply Hcl; set_solver | right; right; reflexivity].
    * rewrite !bool_decide_eq_false_2 by assumption. discriminate.
Qed.

Lemma article_path_match_complete (s cat slug : string) :
  truthy cat = true /\ truthy slug = true
  /\ ~ occurs "/" cat /\ ~ occurs "/" slug
  /\ (s = "/ru/news/" +:+ cat +:+ "/" +:+ slug
      \/ s = "/ru/news/" +:+ cat +:+ "/" +:+ slug +:+ "/"
      \/ s = "/ru/news/" +:+ cat +:+ "/" +:+ slug +:+ "/" +:+ nl) ->
  article_path_match s = Some (cat, slug).
Proof.
  unfold article_path_match.
  intros (H1 & H2 & Hc & Hs & [-> | [-> | ->]]);
    rewrite strip_prefix_app; rewrite ?append_cons, ?append_nil_l;
    destruct (split_slash_segment0 cat Hc) as [_ ->];
    destruct (split_slash_segment0 slug Hs) as [E1 E2].
  + rewrite E1. cbn. now rewrite H1, H2.
  + rewrite E2. cbn. now rewrite H1, H2.
  + rewrite E2. cbn. now rewrite H1, H2.
Qed.

(** X4 (the article path pattern).  [ARTICLE_PATH_RE] accepts a string
    exactly when it is [/ru/news/], a category, [/] and a slug, both
    non-empty and without [/], followed by nothing, by [/], or by [/]
    and a final line feed; the groups are the category and the slug. *)
Theorem article_path_match_iff (s cat slug : string) :
  article_path_match s = Some (cat, slug)
  <-> truthy cat = true /\ truthy slug = true
      /\ ~ occurs "/" cat /\ ~ occurs "/" slug
      /\ (s = "/ru/news/" +:+ cat +:+ "/" +:+ slug
          \/ s = "/ru/news/" +:+ cat +:+ "/" +:+ slug +:+ "/"
          \/ s = "/ru/news/" +:+ cat +:+ "/" +:+ slug +:+ "/" +:+ nl).
Proof.
  split; [apply article_path_match_sound | apply article_path_match_complete].
Qed.

Section MoreProofs.

Context `{lib : Library}.

(** X5 (the tag of an article).  The tag derived from a URL is never
    empty and has no [/] in it: it is [news] or the category segment of
    the path. *)
Theorem tag_from_article_url_clean (article_url : string) :
  truthy (tag_from_article_url article_url) = true
  /\ ~ occurs "/" (tag_from_article_url article_url).
Proof.
  unfold tag_from_article_url.
  destruct (article_path_match (path (urlparse article_url))) as [[cat slug]|] eqn:Hm.
  - apply article_path_match_sound in Hm as (H1 & _ & Hc & _). auto.
  - split; [reflexivity |]. unfold occurs. cbn. intuition discriminate.
Qed.

End MoreProofs.

(** ** The table, read after a write *)

(** X6 (record, then look up).  After [mark_posted] of a URL,
    [already_posted] finds it; the answer for every other URL is what
    it was; the rows that were there are still there, in their order,
    and a new row is added exactly when the URL was not found before. *)
Theorem mark_posted_then_already_posted (url title tag ts : string) (t : Table) :
  already_posted url (mark_posted url title tag ts t) = true
  /\ (forall u, u <> url ->
        already_posted u (mark_posted url title tag ts t) = already_posted u t)
  /\ t `prefix_of` mark_posted url title tag ts t
  /\ (already_posted url t = false ->
      mark_posted url title tag ts t
      = t ++ [ {| rec_url := url; rec_title := title; rec_tag := tag;
                  rec_posted_at := ts |} ])
  /\ (already_posted url t = true -> mark_posted url title tag ts t = t).
Proof.
  unfold already_posted. split_and!.
  - apply bool_decide_eq_true_2, mark_posted_elem.
  - intros u Hu. apply bool_decide_ext. rewrite urls_of_mark_posted.
    case_bool_decide; [reflexivity |].
    rewrite elem_of_app, list_elem_of_singleton. tauto.
  - unfold mark_posted. case_bool_decide; [reflexivity |]. now eexists.
  - intros H. apply bool_decide_eq_false in H. unfold mark_posted.
    now rewrite bool_decide_eq_false_2.
  - intros H. apply bool_decide_eq_true in H. unfold mark_posted.
    now rewrite bool_decide_eq_true_2.
Qed.

(** ** Keeping the first of each key *)

Lemma unique_keep_order_sublist {A} (key : A -> string) (l : list A) :
  forall seen, sublist (unique_keep_order key seen l) l.
Proof.
  induction l as [|y l IH]; intros seen; cbn [unique_keep_order]; [constructor |].
  case_bool_decide; [apply sublist_cons | apply sublist_skip]; apply IH.
Qed.

Lemma unique_keep_order_elem {A} (key : A -> string) (l : list A) :
  forall seen x,
    x ∈ unique_keep_order key seen l
    <-> exists l1 l2,
          l = l1 ++ x :: l2 /\ (key x ∉ seen) /\ (key x ∉ List.map key l1).
Proof.
  induction l as [|y l IH]; intros seen x; cbn [unique_keep_order].
  - split; [intros H; now apply elem_of_nil in H |].
    intros (l1 & l2 & H & _). destruct l1; discriminate.
  - case_bool_decide as Hy.
    + rewrite IH. split.
      * intros (l1 & l2 & -> & Hs & Hk). exists (y :: l1), l2.
        split_and!; [reflexivity | assumption |].
        cbn. intros Hin. apply elem_of_cons in Hin as [Heq | Hin]; [| now apply Hk].
        apply Hs. now rewrite Heq.
      * intros (l1 & l2 & Heq & Hs & Hk). destruct l1 as [|z l1]; simplify_eq/=.
        -- contradiction.
        -- exists l1, l2. split_and!; auto. intros Hin. apply Hk. now right.
    + rewrite elem_of_cons, IH. split.
      * intros [-> | (l1 & l2 & -> & Hs & Hk)].
        -- exists [], l. split_and!; auto. cbn. apply not_elem_of_nil.
        -- exists (y :: l1), l2. split_and!; [reflexivity | |].
           ++ intros Hin. apply Hs, elem_of_union. now right.
           ++ cbn. intros Hin. apply elem_of_cons in Hin as [Heq | Hin]; [| now apply Hk].
              apply Hs. rewrite Heq. apply elem_of_union. left. now apply elem_of_singleton.
      * intros (l1 & l2 & Heq & Hs & Hk). destruct l1 as [|z l1]; simplify_eq/=.
        -- now left.
        -- right. exists l1, l2. split_and!; auto.
           ++ intros Hin. apply elem_of_union in Hin as [Hin | Hin]; [| contradiction].
              apply elem_of_singleton in Hin. apply Hk. rewrite Hin. left.
           ++ intros Hin. apply Hk. now right.
Qed.

Section MoreProofs2.

Context `{lib : Library}.

(** X7 (one listing page).  The links returned for a listing page are
    the article links of the page in their order, each URL once: a link
    is returned exactly when no earlier link of the page has its URL,
    so that the title kept for a URL is the text of its first link. *)
Theorem index_page_keeps_first_links w page_url st anchors :
  get_index w (trace st) page_url = Some anchors ->
  exists items,
    fst (parse_news_index_page w page_url st) = Some items
    /\ NoDup (List.map fst items)
    /\ sublist items (index_items page_url anchors)
    /\ forall x,
         x ∈ items
         <-> exists l1 l2,
               index_items page_url anchors = l1 ++ x :: l2
               /\ (fst x ∉ List.map fst l1).
Proof.
  intros Hget. unfold parse_news_index_page. rewrite Hget. cbn [fst].
  eexists. split_and!; [reflexivity | | |].
  - apply unique_keep_order_spec.
  - apply unique_keep_order_sublist.
  - intros x. rewrite unique_keep_order_elem. split.
    + intros (l1 & l2 & H & _ & Hk). eauto.
    + intros (l1 & l2 & H & Hk). exists l1, l2. split_and!; auto.
      apply not_elem_of_empty.
Qed.

Lemma py_or_empty (s : string) : py_or s EmptyString = s.
Proof. now destruct s. Qed.

Lemma index_items_elem page_url anchors (x : Item) :
  x ∈ index_items page_url anchors ->
  exists a cat slug,
    a ∈ anchors
    /\ article_path_match (strip (href a)) = Some (cat, slug)
    /\ x = (normalize_url (urljoin page_url (strip (href a))), anchor_text a).
Proof.
  unfold index_items. intros Hx. apply list_elem_of_omap in Hx as (a & Ha & Hx).
  cbn in Hx.
  destruct (article_path_match (strip (href a))) as [[cat slug]|] eqn:Hm; [| discriminate].
  injection Hx as <-. rewrite py_or_empty. eauto 6.
Qed.

Lemma index_requests_app (a b : list event) :
  index_requests (a ++ b) = index_requests a ++ index_requests b.
Proof.
  induction a as [|e a IH]; [reflexivity |].
  destruct e; cbn; now rewrite ?IH.
Qed.

(** The requests of the collector, the items it returns and its stop at
    the ceiling. *)
Lemma collect_pages_requests cfg w pages :
  forall acc st,
  exists k,
    (k <= length pages)%nat
    /\ index_requests (trace (snd (collect_pages cfg w pages acc st)))
       = index_requests (trace st) ++ List.map (page_url_of cfg) (take k pages)
    /\ (forall raw,
          fst (collect_pages cfg w pages acc st) = Some raw ->
          (k < length pages)%nat ->
          ARTICLES_PER_PAGE_HINT cfg * PAGES_TO_SCAN cfg <= Z.of_nat (length raw))
    /\ (forall (P : Item -> Prop) raw,
          fst (collect_pages cfg w pages acc st) = Some raw ->
          Forall P acc ->
          (forall page anchors x,
             page ∈ pages -> x ∈ index_items (page_url_of cfg page) anchors -> P x) ->
          Forall P raw).
Proof.
  induction pages as [|page pages IH]; intros acc st.
  - exists 0%nat. cbn. rewrite app_nil_r. split_and!; auto; try lia.
    intros P raw [= <-]. auto.
  - cbn [collect_pages]. unfold parse_news_index_page.
    destruct (get_index w (trace st) (page_url_of cfg page)) as [anchors|] eqn:Hget.
    + set (items := unique_keep_order fst ∅ (index_items (page_url_of cfg page) anchors)).
      assert (Hitems : forall (P : Item -> Prop),
                 (forall page' anchors' x,
                    page' ∈ page :: pages ->
                    x ∈ index_items (page_url_of cfg page') anchors' -> P x) ->
                 Forall P items).
      { intros P HP. apply Forall_forall. intros x Hx.
        apply (HP page anchors); [left |].
        eapply elem_of_sublist; [exact Hx | apply unique_keep_order_sublist]. }
      destruct (Z.leb_spec (ARTICLES_PER_PAGE_HINT cfg * PAGES_TO_SCAN cfg)
                  (Z.of_nat (length (acc ++ items)))) as [Hfull|Hroom].
      * exists 1%nat. cbn. rewrite index_requests_app. cbn.
        split_and!; auto; try lia.
        -- intros raw [= <-] _. exact Hfull.
        -- intros P raw [= <-] Hacc HP. apply Forall_app. auto.
      * destruct (IH (acc ++ items) (log (EvIndex (page_url_of cfg page) (Some anchors)) st))
          as (k & Hk & Hreq & Hstop & Hall).
        exists (S k). rewrite Hreq. cbn. rewrite index_requests_app. cbn.
        rewrite <- app_assoc. cbn.
        split_and!; auto; try lia.
        -- intros raw Hraw Hlt. apply Hstop; [exact Hraw | lia].
        -- intros P raw Hraw Hacc HP. apply (Hall P raw Hraw).
           ++ apply Forall_app. auto.
           ++ intros page' anchors' x Hp. apply HP. now right.
    + exists 1%nat. cbn. rewrite index_requests_app. cbn.
      split_and!; auto; try lia; intros; discriminate.
Qed.

(** X8 (the pages requested).  The collector requests the listing
    pages 1, 2, ... in this order and none other, at most
    [PAGES_TO_SCAN] of them; when it returns links without having
    requested all these pages, it holds at least
    [ARTICLES_PER_PAGE_HINT * PAGES_TO_SCAN] links. *)
Theorem collect_requests_pages_in_order cfg w st :
  exists k,
    (k <= Z.to_nat (PAGES_TO_SCAN cfg))%nat
    /\ index_requests (trace (snd (collect_new_links_all cfg w st)))
       = index_requests (trace st)
         ++ List.map (fun n => page_url_of cfg (Z.of_nat n)) (seq 1 k)
    /\ (forall raw,
          fst (collect_new_links_all cfg w st) = Some raw ->
          (k < Z.to_nat (PAGES_TO_SCAN cfg))%nat ->
          ARTICLES_PER_PAGE_HINT cfg * PAGES_TO_SCAN cfg <= Z.of_nat (length raw)).
Proof.
  unfold collect_new_links_all.
  destruct (collect_pages_requests cfg w (page_range cfg) [] st)
    as (k & Hk & Hreq & Hstop & _).
  unfold page_range in *. rewrite length_map, length_seq in Hk.
  exists k. split_and!; [exact Hk | | ].
  - rewrite Hreq. f_equal. rewrite <- fmap_take, take_seq, List.map_map.
    now rewrite Nat.min_l by exact Hk.
  - intros raw Hraw Hlt. apply (Hstop raw Hraw).
    now rewrite length_map, length_seq.
Qed.

(** Where a collected link comes from: the links held before, or the
    answer to one of the requests of the collector. *)
Lemma collect_pages_origin cfg w pages :
  forall acc st raw (x : Item),
    fst (collect_pages cfg w pages acc st) = Some raw ->
    x ∈ raw ->
    x ∈ acc
    \/ exists page anchors earlier later,
         page ∈ pages
         /\ trace (snd (collect_pages cfg w pages acc st))
            = (trace st ++ earlier)
              ++ EvIndex (page_url_of cfg page) (Some anchors) :: later
         /\ get_index w (trace st ++ earlier) (page_url_of cfg page) = Some anchors
         /\ x ∈ index_items (page_url_of cfg page) anchors.
Proof.
  induction pages as [|page pages IH]; intros acc st raw x.
  - cbn. intros [= <-] Hx. now left.
  - cbn [collect_pages]. unfold parse_news_index_page.
    destruct (get_index w (trace st) (page_url_of cfg page)) as [anchors|] eqn:Hget;
      [| discriminate].
    assert (Hitems : forall y : Item,
              y ∈ unique_keep_order fst ∅ (index_items (page_url_of cfg page) anchors) ->
              y ∈ index_items (page_url_of cfg page) anchors).
    { intros y Hy. eapply elem_of_sublist; [exact Hy | apply unique_keep_order_sublist]. }
    match goal with |- context [if ?b then _ else _] => destruct b end.
    + cbn. intros [= <-] Hx. apply elem_of_app in Hx as [Hx | Hx]; [now left | right].
      exists page, anchors, [], []. rewrite app_nil_r.
      split_and!; [left | reflexivity | exact Hget | now apply Hitems].
    + intros Hraw Hx.
      match type of Hraw with context [collect_pages _ _ _ ?a ?s] =>
        destruct (IH a s raw x Hraw Hx)
          as [Hacc | (page' & anchors' & earlier & later & Hp & Ht & Hg & Hi)];
        destruct (collect_pages_trace cfg w pages a s) as (idx & Htr & _)
      end.
      * apply elem_of_app in Hacc as [Hacc | Hacc]; [now left | right].
        exists page, anchors, [], idx. rewrite app_nil_r.
        split_and!; [left | | exact Hget | now apply Hitems].
        rewrite Htr. cbn. now rewrite <- app_assoc.
      * right.
        exists page', anchors',
          (EvIndex (page_url_of cfg page) (Some anchors) :: earlier), later.
        cbn [log trace] in Ht, Hg. rewrite <- !app_assoc in Ht, Hg. cbn in Ht, Hg.
        split_and!; [now right | | exact Hg | exact Hi].
        rewrite Ht. now rewrite <- !app_assoc.
Qed.

Lemma page_range_bounds cfg page :
  page ∈ page_range cfg -> 1 <= page <= PAGES_TO_SCAN cfg.
Proof.
  unfold page_range. intros H. apply list_elem_of_In, in_map_iff in H as (n & <- & Hn).
  apply in_seq in Hn. lia.
Qed.

(** X9 (only article links become candidates).  Every link that the
    collector returns comes from an anchor of a listing page that the
    collector requested: the page is one of the pages 1 to
    [PAGES_TO_SCAN], the request for it is an event of the collector,
    made after the events that came before the collector started, and
    the anchor is one of those the site answered to this request.  The
    stripped [href] of the anchor has the shape of an article path; the
    URL of the link is the normalized join of the page URL and that
    [href], its title the text of the anchor. *)
Theorem collected_links_are_article_links cfg w st raw (x : Item) :
  fst (collect_new_links_all cfg w st) = Some raw ->
  x ∈ raw ->
  exists page anchors earlier later a cat slug,
    1 <= page <= PAGES_TO_SCAN cfg
    /\ trace (snd (collect_new_links_all cfg w st))
       = (trace st ++ earlier)
         ++ EvIndex (page_url_of cfg page) (Some anchors) :: later
    /\ get_index w (trace st ++ earlier) (page_url_of cfg page) = Some anchors
    /\ a ∈ anchors
    /\ article_path_match (strip (href a)) = Some (cat, slug)
    /\ x = (normalize_url (urljoin (page_url_of cfg page) (strip (href a))),
            anchor_text a).
Proof.
  unfold collect_new_links_all. intros Hraw Hx.
  destruct (collect_pages_origin cfg w (page_range cfg) [] st raw x Hraw Hx)
    as [Hnil | (page & anchors & earlier & later & Hp & Ht & Hg & Hi)].
  { now apply elem_of_nil in Hnil. }
  apply index_items_elem in Hi as (a & cat & slug & Ha & Hm & ->).
  exists page, anchors, earlier, later, a, cat, slug.
  split_and!; [apply (page_range_bounds cfg page Hp) .. | | | | |]; auto.
Qed.

End MoreProofs2.

(** ** More on the run *)

Section MoreProofs3.

Context `{lib : Library}.

Lemma iterations_exit w cutoff cap h n us ext ex :
  iterations w cutoff cap h n us ext ex -> ex <> ExitMissingConfig.
Proof. induction 1; auto; discriminate. Qed.

Lemma iterations_nil w cutoff cap h n ext ex :
  iterations w cutoff cap h n [] ext ex -> ext = [] /\ ex = Returned.
Proof. inversion 1. auto. Qed.

(** When the loop returns, every article it took up has been recorded. *)
Lemma iterations_returned_marks w cutoff cap h n us ext ex :
  iterations w cutoff cap h n us ext ex ->
  ex = Returned ->
  forall u, u ∈ us -> exists title tag ts, EvMark u title tag ts ∈ ext.
Proof.
  induction 1; intros Hex u' Hu; try discriminate.
  - now apply elem_of_nil in Hu.
  - apply elem_of_cons in Hu as [-> | Hu].
    + exists title, tag, ts. right. left.
    + destruct (IHiterations Hex u' Hu) as (t1 & t2 & t3 & Hin).
      exists t1, t2, t3. right. right. exact Hin.
  - apply elem_of_cons in Hu as [-> | Hu].
    + exists title, tag, ts. right. left.
    + destruct (IHiterations Hex u' Hu) as (t1 & t2 & t3 & Hin).
      exists t1, t2, t3. right. right. exact Hin.
  - apply elem_of_cons in Hu as [-> | Hu].
    + exists title, tag, ts. right. left.
    + destruct (IHiterations Hex u' Hu) as (t1 & t2 & t3 & Hin).
      exists t1, t2, t3. right. right. exact Hin.
  - apply elem_of_cons in Hu as [-> | Hu].
    + exists title, tag, ts. right. right. left.
    + destruct (IHiterations Hex u' Hu) as (t1 & t2 & t3 & Hin).
      exists t1, t2, t3. do 4 right. exact Hin.
Qed.

(** A published article has been recorded, however the loop ends. *)
Lemma iterations_published_marked w cutoff cap h n us ext ex :
  iterations w cutoff cap h n us ext ex ->
  forall u, u ∈ published_urls ext -> exists title tag ts, EvMark u title tag ts ∈ ext.
Proof.
  induction 1; intros u' Hu; cbn in Hu;
    try (now apply elem_of_nil in Hu);
    try (destruct (IHiterations u' Hu) as (t1 & t2 & t3 & Hin);
         exists t1, t2, t3; right; right; exact Hin).
  apply elem_of_cons in Hu as [-> | Hu].
  - subst. exists title, tag, ts. right. right. left.
  - destruct (IHiterations u' Hu) as (t1 & t2 & t3 & Hin).
    exists t1, t2, t3. do 4 right. exact Hin.
Qed.

Lemma sleeps_app (a b : list event) : sleeps (a ++ b) = sleeps a ++ sleeps b.
Proof.
  induction a as [|e a IH]; [reflexivity |].
  destruct e; cbn; now rewrite ?IH.
Qed.

Lemma sleeps_index (idx : list event) : Forall is_index idx -> sleeps idx = [].
Proof.
  induction 1 as [|e idx He _ IH]; [reflexivity |].
  destruct e; cbn in *; try contradiction. exact IH.
Qed.

Lemma iterations_sleeps w cutoff cap h n us ext ex :
  iterations w cutoff cap h n us ext ex ->
  length (sleeps ext) = length (published_urls ext).
Proof. induction 1; cbn; auto. Qed.

Lemma filter_all_posted (db : Table) (raw : list (string * string)) :
  (forall c, c ∈ raw -> fst c ∈ urls_of db) ->
  List.filter (fun c => negb (already_posted (fst c) db)) raw = [].
Proof.
  induction raw as [|c raw IH]; intros H; [reflexivity |].
  cbn. unfold already_posted at 1.
  rewrite bool_decide_eq_true_2 by (apply H; left). cbn.
  apply IH. intros c' Hc'. apply H. now right.
Qed.

Lemma filter_sublist {A} (f : A -> bool) (l : list A) : sublist (List.filter f l) l.
Proof.
  induction l as [|x l IH]; cbn; [constructor |].
  destruct (f x); [now apply sublist_skip | now apply sublist_cons].
Qed.

(** X10 (every article looked at is recorded).  When a run returns,
    every article whose page it requested, with or without success, is
    in the table afterwards. *)
Theorem fetched_articles_are_recorded cfg w db u resp :
  fst (run_once cfg w db) = Returned ->
  EvArticle u resp ∈ trace (snd (run_once cfg w db)) ->
  u ∈ urls_of (table (snd (run_once cfg w db))).
Proof.
  intros Hex Hin.
  destruct (run_once_shape cfg w db)
    as (idx & us & ext & Ht & Hidx & Htb & Hnew & Hpre & Hcase).
  rewrite Ht in Hin. rewrite Htb.
  apply elem_of_app in Hin as [Hin | Hin].
  { rewrite Forall_forall in Hidx. destruct (Hidx _ Hin). }
  destruct Hcase as [[Hok Hi] | [(_ & -> & _) | (_ & -> & _)]];
    [| now apply elem_of_nil in Hin | now apply elem_of_nil in Hin].
  assert (Hu : u ∈ us) by (eapply iterations_urls; eauto).
  destruct (iterations_returned_marks _ _ _ _ _ _ _ _ Hi Hex u Hu)
    as (title & tag & ts & Hm).
  eapply apply_marks_marked; eauto.
Qed.

(** X11 (no second post, no second look).  An article that a run
    published, and an article that a returning run looked at, is the
    subject of no event of a later run that starts from the table the
    first run left: whatever the configuration and the answers of the
    world then are, it is not fetched, sent or recorded again. *)
Theorem no_repost_in_next_run cfg w db cfg' w' u :
  u ∈ published_urls (trace (snd (run_once cfg w db)))
  \/ (fst (run_once cfg w db) = Returned
      /\ exists resp, EvArticle u resp ∈ trace (snd (run_once cfg w db))) ->
  forall e,
    e ∈ trace (snd (run_once cfg' w' (table (snd (run_once cfg w db))))) ->
    event_url e <> Some u.
Proof.
  intros Hfirst.
  assert (Hrec : u ∈ urls_of (table (snd (run_once cfg w db)))).
  { destruct (run_once_shape cfg w db)
      as (idx & us & ext & Ht & Hidx & Htb & Hnew & Hpre & Hcase).
    rewrite Htb. destruct Hfirst as [Hpub | (Hex & resp & Hin)].
    - rewrite Ht, published_urls_app, (published_urls_index idx Hidx) in Hpub.
      cbn [app] in Hpub.
      destruct Hcase as [[Hok Hi] | [(_ & -> & _) | (_ & -> & _)]];
        [| now apply elem_of_nil in Hpub | now apply elem_of_nil in Hpub].
      destruct (iterations_published_marked _ _ _ _ _ _ _ _ Hi u Hpub)
        as (title & tag & ts & Hm).
      eapply apply_marks_marked; eauto.
    - rewrite Ht in Hin. apply elem_of_app in Hin as [Hin | Hin].
      { rewrite Forall_forall in Hidx. destruct (Hidx _ Hin). }
      destruct Hcase as [[Hok Hi] | [(_ & -> & _) | (_ & -> & _)]];
        [| now apply elem_of_nil in Hin | now apply elem_of_nil in Hin].
      assert (Hu : u ∈ us) by (eapply iterations_urls; eauto).
      destruct (iterations_returned_marks _ _ _ _ _ _ _ _ Hi Hex u Hu)
        as (title & tag & ts & Hm).
      eapply apply_marks_marked; eauto. }
  intros e He Heu.
  destruct (run_once_shape cfg' w' (table (snd (run_once cfg w db))))
    as (idx & us & ext & Ht & Hidx & Htb & Hnew & Hpre & Hcase).
  rewrite Ht in He. apply elem_of_app in He as [He | He].
  - rewrite (index_event_url idx e Hidx He) in Heu. discriminate.
  - destruct Hcase as [[Hok Hi] | [(_ & -> & _) | (_ & -> & _)]];
      [| now apply elem_of_nil in He | now apply elem_of_nil in He].
    apply (Hnew u); [| exact Hrec].
    eapply iterations_urls; eauto.
Qed.

(** X12 (missing configuration).  A run ends for lack of configuration
    exactly when the token or the channel is unset or empty, and then
    it has done nothing: no request, no write. *)
Theorem missing_config_iff cfg w db :
  (fst (run_once cfg w db) = ExitMissingConfig
   <-> truthy_opt (BOT_TOKEN cfg) = false \/ truthy_opt (CHANNEL cfg) = false)
  /\ (fst (run_once cfg w db) = ExitMissingConfig ->
      snd (run_once cfg w db) = {| trace := []; table := db |}).
Proof.
  unfold run_once.
  destruct (truthy_opt (BOT_TOKEN cfg)) eqn:Hb, (truthy_opt (CHANNEL cfg)) eqn:Hc;
    cbn [negb orb fst snd]; try (split; [split; auto | reflexivity]).
  cbn [trace table init_db].
  destruct (collect_new_links_all cfg w {| trace := []; table := db |})
    as [[raw|] st]; cbn [fst snd].
  2: { split; [split; [discriminate | intros [|]; discriminate] | discriminate]. }
  assert (Hloop : forall cands,
             fst (publish_loop cfg w (now_utc w [] - window cfg) cands 0 st)
             <> ExitMissingConfig).
  { intros cands.
    destruct (publish_loop_shape cfg w (now_utc w [] - window cfg) cands 0 st)
      as (us & ext & rest & _ & Hi & _).
    eapply iterations_exit; eauto. }
  destruct raw as [|c raw];
    [split; [split; [discriminate | intros [|]; discriminate] | discriminate] |].
  match goal with |- context [List.filter ?f (c :: raw)] =>
    destruct (List.filter f (c :: raw)) as [|c' cands'] eqn:Hf end;
    [split; [split; [discriminate | intros [|]; discriminate] | discriminate] |].
  rewrite <- Hf.
  split; [split; [intros H; now apply Hloop in H | intros [|]; discriminate] |].
  intros H. now apply Hloop in H.
Qed.

(** X13 (nothing new, nothing done).  When every link of the index is
    in the table already, the run requests no article page, sends
    nothing and leaves the table as it is. *)
Theorem nothing_new_nothing_done cfg w db raw :
  fst (collect_new_links_all cfg w {| trace := []; table := db |}) = Some raw ->
  (forall c, c ∈ raw -> fst c ∈ urls_of db) ->
  Forall is_index (trace (snd (run_once cfg w db)))
  /\ published_urls (trace (snd (run_once cfg w db))) = []
  /\ table (snd (run_once cfg w db)) = db.
Proof.
  intros Hraw Hall.
  destruct (run_once_shape cfg w db)
    as (idx & us & ext & Ht & Hidx & Htb & Hnew & Hpre & Hcase).
  destruct (Hpre raw Hraw) as (rest & Hus).
  unfold candidates_ordered in Hus. rewrite (filter_all_posted db raw Hall) in Hus.
  cbn in Hus. symmetry in Hus. apply app_eq_nil in Hus as [-> _].
  assert (Hext : ext = []).
  { destruct Hcase as [[_ Hi] | [(_ & -> & _) | (_ & -> & _)]]; auto.
    now apply iterations_nil in Hi. }
  subst ext. rewrite Ht, Htb, app_nil_r. cbn.
  split_and!; auto using published_urls_index.
Qed.

(** X14 (distinct links, distinct posts).  When the links that the
    collector returns have distinct URLs, the run publishes no article
    twice. *)
Theorem distinct_links_published_once cfg w db raw :
  fst (collect_new_links_all cfg w {| trace := []; table := db |}) = Some raw ->
  NoDup (List.map fst raw) ->
  NoDup (published_urls (trace (snd (run_once cfg w db)))).
Proof.
  intros Hraw Hnd.
  eapply sublist_NoDup; [| apply (published_oldest_first cfg w db raw Hraw)].
  unfold candidates_ordered. rewrite List.map_rev.
  apply NoDup_ListNoDup, List.NoDup_rev, NoDup_ListNoDup.
  eapply sublist_NoDup; [exact Hnd |].
  apply (fmap_sublist fst), filter_sublist.
Qed.

(** X15 (one pause per post).  A run pauses as many times as it
    publishes. *)
Theorem one_sleep_per_post cfg w db :
  length (sleeps (trace (snd (run_once cfg w db))))
  = length (published_urls (trace (snd (run_once cfg w db)))).
Proof.
  destruct (run_once_shape cfg w db)
    as (idx & us & ext & Ht & Hidx & Htb & Hnew & Hpre & Hcase).
  rewrite Ht, sleeps_app, published_urls_app, (sleeps_index idx Hidx),
    (published_urls_index idx Hidx). cbn [app].
  destruct Hcase as [[_ Hi] | [(_ & -> & _) | (_ & -> & _)]]; [| reflexivity | reflexivity].
  eapply iterations_sleeps; eauto.
Qed.

End MoreProofs3.

(** ** Fallbacks, hashtags and requests *)

Section MoreProofs4.

Context `{lib : Library}.

Lemma when_attr_strip (o v : option string) :
  when_attr o (fun s => Some (strip s)) v
  = if truthy_opt o then Some (stripped o) else v.
Proof. destruct o as [[|c s]|]; reflexivity. Qed.

Lemma when_attr_some (o v : option string) :
  when_attr o Some v = if truthy_opt o then o else v.
Proof. destruct o as [[|c s]|]; reflexivity. Qed.

Lemma stripped_falsy (o : option string) :
  truthy_opt o = false -> stripped o = EmptyString.
Proof.
  destruct o as [[|c s]|]; intros H; [vm_compute; reflexivity | discriminate | reflexivity].
Qed.

Lemma truthy_or_else (o : option string) :
  truthy_opt o = truthy (or_else o EmptyString).
Proof. destruct o as [[|c s]|]; reflexivity. Qed.

(** X16 (image and title fallbacks).  The image of an article is the
    first non-empty one, after stripping, of the contents of the
    [og:image], [twitter:image] and [itemprop=image] elements; the
    title is the stripped [og:title] if that is non-empty and else the
    text of the title element.  When there is none, the value is
    [None] or empty, which the run treats alike. *)
Theorem image_and_title_fallback (d : Document) :
  or_else (image_url_of d) EmptyString
  = first_truthy [ stripped (meta_og_image d); stripped (meta_twitter_image d);
                   stripped (meta_itemprop_image d) ]
  /\ truthy_opt (image_url_of d)
     = truthy (first_truthy [ stripped (meta_og_image d);
                              stripped (meta_twitter_image d);
                              stripped (meta_itemprop_image d) ])
  /\ or_else (title_of d) EmptyString
     = first_truthy [ stripped (meta_og_title d); or_else (title_text d) EmptyString ].
Proof.
  assert (Himg : or_else (image_url_of d) EmptyString
                 = first_truthy [ stripped (meta_og_image d);
                                  stripped (meta_twitter_image d);
                                  stripped (meta_itemprop_image d) ]).
  { unfold image_url_of. rewrite !when_attr_strip. cbn [first_truthy].
    pose proof (stripped_falsy (meta_og_image d)) as H1.
    pose proof (stripped_falsy (meta_twitter_image d)) as H2.
    pose proof (stripped_falsy (meta_itemprop_image d)) as H3.
    destruct (truthy_opt (meta_og_image d));
      destruct (truthy_opt (meta_twitter_image d));
      destruct (truthy_opt (meta_itemprop_image d));
      rewrite ?H1, ?H2, ?H3 by reflexivity; cbn [truthy_opt truthy];
      repeat match goal with
             | |- context [truthy (stripped ?o)] =>
                 let E := fresh "E" in
                 destruct (stripped o) eqn:E; cbn [truthy_opt truthy or_else py_or]
             end;
      reflexivity. }
  split_and!.
  - exact Himg.
  - now rewrite truthy_or_else, Himg.
  - unfold title_of. rewrite when_attr_strip, when_attr_some. cbn [first_truthy].
    pose proof (stripped_falsy (meta_og_title d)) as H1.
    destruct (truthy_opt (meta_og_title d)); rewrite ?H1 by reflexivity;
      cbn [truthy_opt truthy];
      repeat match goal with
             | |- context [truthy (stripped ?o)] =>
                 let E := fresh "E" in
                 destruct (stripped o) eqn:E; cbn [truthy_opt truthy or_else py_or]
             end;
      destruct (title_text d) as [[|tc ts]|]; reflexivity.
Qed.

(** X17 (extra hashtags).  Whatever the title, the extra hashtags are
    some of the eight hashtags of the groups, in the order of the
    groups, each at most once. *)
Theorem extra_hashtags_in_group_order (title : string) :
  NoDup (extra_hashtags_by_title title)
  /\ sublist (extra_hashtags_by_title title)
       [ "#patch"; "#sale"; "#event"; "#tournament"; "#premium"; "#test";
         "#maps"; "#tanks" ].
Proof.
  unfold extra_hashtags_by_title. split.
  - match goal with |- NoDup (unique_keep_order ?kf ?sn ?li) =>
      pose proof (proj1 (unique_keep_order_spec kf li sn)) as H end.
    now rewrite List.map_id in H.
  - etransitivity; [apply unique_keep_order_sublist |].
    change [ "#patch"; "#sale"; "#event"; "#tournament"; "#premium"; "#test";
             "#maps"; "#tanks" ] with (List.map snd hashtag_groups).
    apply (fmap_sublist snd), filter_sublist.
Qed.





End MoreProofs4.

(** * The further properties on the example worlds *)

Section MoreExamples.

Import Example.
Existing Instance Example.library.

Example index_page_ex :
  fst (parse_news_index_page world_links index_url start)
  = Some [(url_a, "Update A"); (url_b, "Sale B")].
Proof. vm_compute. reflexivity. Qed.

Example run_skip_ex :
  fst (run_once config world_skip []) = Returned
  /\ published_urls (trace (snd (run_once config world_skip []))) = []
  /\ urls_of (table (snd (run_once config world_skip []))) = [url_c; url_b; url_a].
Proof. vm_compute. auto. Qed.

Example second_places_ex :
  image_url_of second_places = Some "https://cdn.example/pic.jpg"
  /\ title_of second_places = Some "Title element".
Proof. vm_compute. auto. Qed.

Example tag_ex : tag_from_article_url url_b = "specials".
Proof. vm_compute. reflexivity. Qed.

Example hashtags_ex :
  extra_hashtags_by_title "Big SALE: premium tank event" = ["#sale"; "#event"; "#premium"].
Proof. vm_compute. reflexivity. Qed.

(** X3 on a title. *)
Lemma html_escape_injective_witness :
  html_escape "T-34 <new> & old" = html_escape "T-34 <new> & old"
  /\ "T-34 <new> & old" = "T-34 <new> & old".
Proof.
  split; [reflexivity |].
  apply (html_escape_injective "T-34 <new> & old" "T-34 <new> & old"). reflexivity.
Defined.

(** X7 on the page of [world_links]. *)
Lemma index_page_keeps_first_links_witness :
  get_index world_links (trace start) index_url
  = Some [anchor_a; anchor_section; anchor_b; anchor_a2]
  /\ exists items,
       fst (parse_news_index_page world_links index_url start) = Some items
       /\ NoDup (List.map fst items)
       /\ sublist items
            (index_items index_url [anchor_a; anchor_section; anchor_b; anchor_a2])
       /\ forall x,
            x ∈ items
            <-> exists l1 l2,
                  index_items index_url [anchor_a; anchor_section; anchor_b; anchor_a2]
                  = l1 ++ x :: l2
                  /\ (fst x ∉ List.map fst l1).
Proof.
  split; [reflexivity |].
  apply (index_page_keeps_first_links world_links index_url start
           [anchor_a; anchor_section; anchor_b; anchor_a2]).
  reflexivity.
Defined.

(** X9 on [world_abc]. *)
Lemma collected_links_are_article_links_witness :
  fst (collect_new_links_all config world_abc start)
  = Some [(url_a, "Update A"); (url_b, "Sale B"); (url_c, "News C")]
  /\ (url_b, "Sale B") ∈ [(url_a, "Update A"); (url_b, "Sale B"); (url_c, "News C")]
  /\ exists page anchors earlier later a cat slug,
       1 <= page <= PAGES_TO_SCAN config
       /\ trace (snd (collect_new_links_all config world_abc start))
          = (trace start ++ earlier)
            ++ EvIndex (page_url_of config page) (Some anchors) :: later
       /\ get_index world_abc (trace start ++ earlier) (page_url_of config page)
          = Some anchors
       /\ a ∈ anchors
       /\ article_path_match (strip (href a)) = Some (cat, slug)
       /\ (url_b, "Sale B")
          = (normalize_url (urljoin (page_url_of config page) (strip (href a))),
             anchor_text a).
Proof.
  assert (H : fst (collect_new_links_all config world_abc start)
              = Some [(url_a, "Update A"); (url_b, "Sale B"); (url_c, "News C")]).
  { vm_compute. reflexivity. }
  split; [exact H |]. split; [right; left |].
  apply (collected_links_are_article_links config world_abc start _ _ H).
  right. left.
Defined.

(** X10 on [world_skip], for the page that cannot be fetched. *)
Lemma fetched_articles_are_recorded_witness :
  fst (run_once config world_skip []) = Returned
  /\ EvArticle url_b None ∈ trace (snd (run_once config world_skip []))
  /\ url_b ∈ urls_of (table (snd (run_once config world_skip []))).
Proof.
  assert (H1 : fst (run_once config world_skip []) = Returned).
  { vm_compute. reflexivity. }
  assert (H2 : EvArticle url_b None ∈ trace (snd (run_once config world_skip []))).
  { vm_compute. do 8 right. left. }
  split; [exact H1 |]. split; [exact H2 |].
  apply (fetched_articles_are_recorded config world_skip [] url_b None H1 H2).
Defined.

(** X11 on two runs in [world_abc]: C is not taken up again. *)
Lemma no_repost_in_next_run_witness :
  url_c ∈ published_urls (trace (snd (run_once config world_abc [])))
  /\ forall e,
       e ∈ trace (snd (run_once config world_abc
                         (table (snd (run_once config world_abc []))))) ->
       event_url e <> Some url_c.
Proof.
  assert (H : url_c ∈ published_urls (trace (snd (run_once config world_abc [])))).
  { vm_compute. left. }
  split; [exact H |].
  apply (no_repost_in_next_run config world_abc [] config world_abc url_c).
  left. exact H.
Defined.

(** X13 on [world_dup] with A in the table. *)
Lemma nothing_new_nothing_done_witness :
  fst (collect_new_links_all config world_dup {| trace := []; table := table_a |})
  = Some [(url_a, "Update A"); (url_a, "Update A")]
  /\ (forall c, c ∈ [(url_a, "Update A"); (url_a, "Update A")] ->
        fst c ∈ urls_of table_a)
  /\ (Forall is_index (trace (snd (run_once config world_dup table_a)))
      /\ published_urls (trace (snd (run_once config world_dup table_a))) = []
      /\ table (snd (run_once config world_dup table_a)) = table_a).
Proof.
  assert (H1 : fst (collect_new_links_all config world_dup
                      {| trace := []; table := table_a |})
               = Some [(url_a, "Update A"); (url_a, "Update A")]).
  { vm_compute. reflexivity. }
  assert (H2 : forall c, c ∈ [(url_a, "Update A"); (url_a, "Update A")] ->
                 fst c ∈ urls_of table_a).
  { intros c Hc. repeat (apply elem_of_cons in Hc as [-> | Hc]); try (left; fail).
    now apply elem_of_nil in Hc. }
  split; [exact H1 |]. split; [exact H2 |].
  apply (nothing_new_nothing_done config world_dup table_a _ H1 H2).
Defined.

(** X14 on [world_abc]. *)
Lemma distinct_links_published_once_witness :
  fst (collect_new_links_all config world_abc {| trace := []; table := [] |})
  = Some [(url_a, "Update A"); (url_b, "Sale B"); (url_c, "News C")]
  /\ NoDup (List.map fst [(url_a, "Update A"); (url_b, "Sale B"); (url_c, "News C")])
  /\ NoDup (published_urls (trace (snd (run_once config world_abc [])))).
Proof.
  assert (H1 : fst (collect_new_links_all config world_abc {| trace := []; table := [] |})
               = Some [(url_a, "Update A"); (url_b, "Sale B"); (url_c, "News C")]).
  { vm_compute. reflexivity. }
  assert (H2 : NoDup (List.map fst
                        [(url_a, "Update A"); (url_b, "Sale B"); (url_c, "News C")])).
  { apply (@bool_decide_unpack _ (NoDup_dec _)). vm_compute. exact I. }
  split; [exact H1 |]. split; [exact H2 |].
  apply (distinct_links_published_once config world_abc [] _ H1 H2).
Defined.


End MoreExamples.

(** ** Where dates and rows come from, and how a run ends *)

Section MoreProofs5.

Context `{lib : Library}.

Lemma first_some_sound {A B} (f : A -> option B) (l : list A) (y : B) :
  first_some f l = Some y -> exists x, x ∈ l /\ f x = Some y.
Proof.
  induction l as [|x l IH]; cbn; [discriminate |].
  destruct (f x) as [y'|] eqn:Hx.
  - intros [= ->]. exists x. split; [left | exact Hx].
  - intros H. destruct (IH H) as (x' & Hin & Hx'). exists x'. split; [now right | exact Hx'].
Qed.

Lemma when_attr_sound (o : option string) (t : Z) :
  when_attr o parse_iso_datetime None = Some t ->
  exists s, o = Some s /\ parse_iso_datetime s = Some t.
Proof.
  destruct o as [s|]; cbn; [| discriminate].
  destruct (truthy s); [eauto | discriminate].
Qed.

(** X19 (no invented dates).  A publish time that the fetcher returns is
    the parse of a string of the page: the content of the published-time
    element, the [datetime] of the time element, the content of the
    [datePublished] element, or the string under [datePublished] or
    [dateCreated] in an object of a JSON-LD script that [json.loads]
    accepts. *)
Theorem published_dt_comes_from_page (d : Document) (t : Z) :
  published_dt_of d = Some t ->
  exists s,
    parse_iso_datetime s = Some t
    /\ (meta_published_time d = Some s
        \/ time_datetime d = Some s
        \/ meta_itemprop_date d = Some s
        \/ exists raw data m key,
             raw ∈ ld_json_scripts d
             /\ json_loads raw = Some data
             /\ (data = JObj m \/ exists l, data = JArr l /\ JObj m ∈ l)
             /\ (key = "datePublished" \/ key = "dateCreated")
             /\ dict_get key m = Some (JStr s)).
Proof.
  unfold published_dt_of.
  destruct (when_attr (meta_published_time d) parse_iso_datetime None) as [t1|] eqn:H1.
  { intros [= ->]. apply when_attr_sound in H1 as (s & Hs & Hp). eauto. }
  destruct (when_attr (time_datetime d) parse_iso_datetime None) as [t2|] eqn:H2.
  { intros [= ->]. apply when_attr_sound in H2 as (s & Hs & Hp). eauto. }
  destruct (when_attr (meta_itemprop_date d) parse_iso_datetime None) as [t3|] eqn:H3.
  { intros [= ->]. apply when_attr_sound in H3 as (s & Hs & Hp). eauto 6. }
  unfold extract_from_jsonld. intros H.
  apply first_some_sound in H as (raw & Hraw & H).
  unfold jsonld_script_date in H.
  destruct (truthy raw); cbn [negb] in H; [| discriminate].
  destruct (json_loads raw) as [data|] eqn:Hdata; [| discriminate].
  apply first_some_sound in H as (obj & Hobj & H).
  unfold jsonld_object_date in H.
  destruct obj as [| | | | | |m]; try discriminate.
  assert (Hplace : data = JObj m \/ exists l, data = JArr l /\ JObj m ∈ l).
  { destruct data; try (apply list_elem_of_singleton in Hobj; now left).
    right. eauto. }
  assert (Hkey : exists key s,
             (key = "datePublished" \/ key = "dateCreated")
             /\ dict_get key m = Some (JStr s) /\ parse_iso_datetime s = Some t).
  { destruct (dict_get "datePublished" m) as [v|] eqn:Hp.
    - destruct (truthy_json v) eqn:Hv.
      + destruct v; try discriminate. exists "datePublished", s. auto.
      + destruct (dict_get "dateCreated" m) as [v'|] eqn:Hc; [| discriminate].
        destruct v'; try discriminate. exists "dateCreated", s. auto.
    - destruct (dict_get "dateCreated" m) as [v'|] eqn:Hc; [| discriminate].
      destruct v'; try discriminate. exists "dateCreated", s. auto. }
  destruct Hkey as (key & s & Hk & Hget & Hparse).
  exists s. split; [exact Hparse |]. do 3 right.
  exists raw, data, m, key. auto.
Qed.

Lemma mark_posted_prefix url title tag ts (t : Table) :
  t `prefix_of` mark_posted url title tag ts t.
Proof. unfold mark_posted. case_bool_decide; [reflexivity | now eexists]. Qed.

Lemma apply_marks_prefix (tr : list event) :
  forall t : Table, t `prefix_of` apply_marks tr t.
Proof.
  induction tr as [|e tr IH]; intros t; [reflexivity |].
  destruct e; cbn; auto.
  etransitivity; [apply mark_posted_prefix | apply IH].
Qed.

Lemma apply_marks_new (tr : list event) (u : string) :
  forall t : Table,
    u ∈ urls_of (apply_marks tr t) ->
    u ∈ urls_of t \/ exists title tag ts, EvMark u title tag ts ∈ tr.
Proof.
  induction tr as [|e tr IH]; intros t Hu; [now left |].
  assert (Hrec : forall t', u ∈ urls_of (apply_marks tr t') ->
                   u ∈ urls_of t' \/ exists title tag ts, EvMark u title tag ts ∈ e :: tr).
  { intros t' H. destruct (IH t' H) as [|(t1 & t2 & t3 & Hin)]; [now left |].
    right. exists t1, t2, t3. now right. }
  destruct e as [| | |url title tag ts|]; cbn in Hu; auto.
  destruct (Hrec _ Hu) as [Hin | Hin]; [| now right].
  rewrite urls_of_mark_posted in Hin. case_bool_decide; [now left |].
  apply elem_of_app in Hin as [Hin | Hin]; [now left |].
  apply list_elem_of_singleton in Hin as ->.
  right. exists title, tag, ts. left.
Qed.

(** X20 (the table only grows).  A run removes and changes no row: the
    table before the run is the beginning of the table after it; and a
    URL that is new in the table is the URL of a link that the
    collector returned in this run. *)
Theorem table_only_grows cfg w db :
  db `prefix_of` table (snd (run_once cfg w db))
  /\ forall u,
       u ∈ urls_of (table (snd (run_once cfg w db))) ->
       u ∉ urls_of db ->
       exists raw,
         fst (collect_new_links_all cfg w {| trace := []; table := db |}) = Some raw
         /\ u ∈ List.map fst raw.
Proof.
  split.
  { destruct (run_once_shape cfg w db) as (idx & us & ext & _ & _ & -> & _).
    apply apply_marks_prefix. }
  intros u Hu Hnew. unfold run_once in Hu.
  destruct (negb (truthy_opt (BOT_TOKEN cfg)) || negb (truthy_opt (CHANNEL cfg)));
    [contradiction |].
  cbn [trace table init_db] in Hu. unfold collect_new_links_all in *.
  destruct (collect_pages_trace cfg w (page_range cfg) []
              {| trace := []; table := db |}) as (idx & _ & Htb & _ & _).
  destruct (collect_pages cfg w (page_range cfg) [] {| trace := []; table := db |})
    as [[raw|] st]; cbn [fst snd trace table] in *; [| congruence].
  exists raw. split; [reflexivity |].
  destruct raw as [|c raw]; [cbn in Hu; congruence |].
  match type of Hu with context [List.filter ?f (c :: raw)] =>
    pose proof (filter_sublist f (c :: raw)) as Hsub;
    destruct (List.filter f (c :: raw)) as [|c' cands] eqn:Hf end;
    [cbn in Hu; congruence |].
  rewrite <- Hf in *. clear Hf.
  match type of Hu with context [publish_loop _ _ ?co ?cs 0 st] =>
    destruct (publish_loop_shape cfg w co cs 0 st) as (us & ext & rest & _ & Hi & Htb' & Hp)
  end.
  rewrite Htb', Htb in Hu.
  apply apply_marks_new in Hu as [Hu | (title & tag & ts & Hm)]; [contradiction |].
  assert (Hus : u ∈ us) by (eapply iterations_urls; eauto).
  assert (Hc : u ∈ List.map fst (List.rev (List.filter
                 (fun c0 : string * string => negb (already_posted (fst c0) (table st)))
                 (c :: raw)))).
  { rewrite Hp. apply elem_of_app. now left. }
  rewrite List.map_rev in Hc.
  apply list_elem_of_In, in_rev, list_elem_of_In in Hc.
  eapply elem_of_sublist; [exact Hc |]. apply (fmap_sublist fst), filter_sublist.
Qed.

Lemma iterations_telegram_error w cutoff cap h n us ext ex :
  iterations w cutoff cap h n us ext ex ->
  ex = ExitTelegramError ->
  exists l req, ext = l ++ [EvTelegram req (Some false)].
Proof.
  induction 1; intros Hex; try discriminate;
    try (destruct (IHiterations Hex) as (l & rq & ->);
         first [ now eexists (_ :: _ :: l), rq
               | now eexists (_ :: _ :: _ :: _ :: l), rq ]).
  now eexists [_], req.
Qed.

(** X21 (how a run ends).  When a run returns, Telegram has accepted
    every message of the run.  A run ends with the Telegram error
    exactly when its last event is a request that Telegram answered
    without success. *)
Theorem exit_and_last_request cfg w db :
  (fst (run_once cfg w db) = Returned ->
   forall req resp,
     EvTelegram req resp ∈ trace (snd (run_once cfg w db)) -> resp = Some true)
  /\ (fst (run_once cfg w db) = ExitTelegramError
      <-> exists l req,
            trace (snd (run_once cfg w db)) = l ++ [EvTelegram req (Some false)]).
Proof.
  destruct (run_once_shape cfg w db)
    as (idx & us & ext & Ht & Hidx & Htb & Hnew & Hpre & Hcase).
  rewrite Ht. split.
  - intros Hex req resp Hin.
    apply list_elem_of_split in Hin as (l1 & l2 & Heq).
    destruct (split_after_index _ _ _ _ _ Hidx (not_index_telegram _ _) Heq)
      as (l1' & -> & Hext).
    destruct Hcase as [[_ Hi] | [(_ & -> & _) | (_ & -> & _)]];
      [| destruct l1'; discriminate | destruct l1'; discriminate].
    destruct resp as [[|]|]; [reflexivity | |];
      (destruct (iterations_refusal_ends _ _ _ _ _ _ _ _ Hi _ _ _ _ Hext) as [_ Hx];
       [discriminate | congruence]).
  - split.
    + intros Hex.
      destruct Hcase as [[_ Hi] | [(_ & _ & Hx) | (_ & _ & Hx)]]; [| congruence | congruence].
      destruct (iterations_telegram_error _ _ _ _ _ _ _ _ Hi Hex) as (l & req & ->).
      exists (idx ++ l), req. now rewrite app_assoc.
    + intros (l & req & Heq).
      destruct (split_after_index idx ext l [] _ Hidx (not_index_telegram _ _) Heq)
        as (l1' & -> & Hext).
      destruct Hcase as [[_ Hi] | [(_ & -> & _) | (_ & -> & _)]];
        [| destruct l1'; discriminate | destruct l1'; discriminate].
      destruct (iterations_refusal_ends _ _ _ _ _ _ _ _ Hi _ _ _ _ Hext) as [_ Hx];
        [discriminate | exact Hx].
Qed.

Lemma iterations_capped w cutoff cap h n us ext ex :
  iterations w cutoff cap h n us ext ex -> cap <= n -> ext = [].
Proof. destruct 1; intros Hcap; [reflexivity | lia ..]. Qed.

(** X22 (a cap of zero).  With a cap of zero or less the run reads the
    index and then stops: it requests no article page, sends nothing
    and leaves the table as it is. *)
Theorem zero_cap_does_nothing cfg w db :
  MAX_POSTS_PER_RUN cfg <= 0 ->
  Forall is_index (trace (snd (run_once cfg w db)))
  /\ published_urls (trace (snd (run_once cfg w db))) = []
  /\ table (snd (run_once cfg w db)) = db.
Proof.
  intros Hcap.
  destruct (run_once_shape cfg w db)
    as (idx & us & ext & Ht & Hidx & Htb & Hnew & Hpre & Hcase).
  assert (Hext : ext = []).
  { destruct Hcase as [[_ Hi] | [(_ & -> & _) | (_ & -> & _)]]; auto.
    eapply iterations_capped; eauto. }
  subst ext. rewrite Ht, Htb, app_nil_r. cbn.
  split_and!; auto using published_urls_index.
Qed.

(** No pages to scan.  With [PAGES_TO_SCAN] zero or less a
    configured run returns at once, without any request or write. *)
Theorem no_pages_no_requests cfg w db :
  PAGES_TO_SCAN cfg <= 0 ->
  truthy_opt (BOT_TOKEN cfg) = true ->
  truthy_opt (CHANNEL cfg) = true ->
  run_once cfg w db = (Returned, {| trace := []; table := db |}).
Proof.
  intros Hp Hb Hc. unfold run_once. rewrite Hb, Hc. cbn [negb orb trace table init_db].
  unfold collect_new_links_all, page_range.
  replace (Z.to_nat (PAGES_TO_SCAN cfg)) with 0%nat by lia.
  reflexivity.
Qed.

End MoreProofs5.

Section MoreWitnesses.

Import Example.
Existing Instance Example.library.

(** X19 on the page dated by its JSON-LD block. *)
Lemma published_dt_comes_from_page_witness :
  published_dt_of jsonld_only = Some 1714557600000000
  /\ exists s,
       parse_iso_datetime s = Some 1714557600000000
       /\ (meta_published_time jsonld_only = Some s
           \/ time_datetime jsonld_only = Some s
           \/ meta_itemprop_date jsonld_only = Some s
           \/ exists raw data m key,
                raw ∈ ld_json_scripts jsonld_only
                /\ json_loads raw = Some data
                /\ (data = JObj m \/ exists l, data = JArr l /\ JObj m ∈ l)
                /\ (key = "datePublished" \/ key = "dateCreated")
                /\ dict_get key m = Some (JStr s)).
Proof.
  assert (H : published_dt_of jsonld_only = Some 1714557600000000).
  { vm_compute. reflexivity. }
  split; [exact H |].
  apply (published_dt_comes_from_page jsonld_only 1714557600000000 H).
Defined.

(** X22 on [world_abc] with the cap at zero. *)
Lemma zero_cap_does_nothing_witness :
  MAX_POSTS_PER_RUN config_zero_cap <= 0
  /\ (Forall is_index (trace (snd (run_once config_zero_cap world_abc [])))
      /\ published_urls (trace (snd (run_once config_zero_cap world_abc []))) = []
      /\ table (snd (run_once config_zero_cap world_abc [])) = []).
Proof.
  assert (H : MAX_POSTS_PER_RUN config_zero_cap <= 0) by (vm_compute; discriminate).
  split; [exact H |].
  apply (zero_cap_does_nothing config_zero_cap world_abc [] H).
Defined.

(** The same on [world_abc] with no page to scan. *)
Lemma no_pages_no_requests_witness :
  PAGES_TO_SCAN config_no_pages <= 0
  /\ truthy_opt (BOT_TOKEN config_no_pages) = true
  /\ truthy_opt (CHANNEL config_no_pages) = true
  /\ run_once config_no_pages world_abc [] = (Returned, {| trace := []; table := [] |}).
Proof.
  assert (H : PAGES_TO_SCAN config_no_pages <= 0) by (vm_compute; discriminate).
  split; [exact H |]. split; [reflexivity |]. split; [reflexivity |].
  apply (no_pages_no_requests config_no_pages world_abc [] H); reflexivity.
Defined.

End MoreWitnesses.
